(** * Harvesting pipeline of the DCI listing scraper (src/docs/index.md)
    and the per-name search CLI (src/unnamed/part_001).

    JavaScript strings are sequences of UTF-16 code units; they are
    modelled as [list Z].  Builtins whose behaviour depends on the host
    (the [Date] parser, [toLocaleString], the network, JSDOM, the
    completion service) are fields of the record [Env], so that every
    theorem holds for each of their behaviours. *)

From Stdlib Require Import ZArith List Bool Lia Ascii String.
Import ListNotations.
Open Scope Z_scope.

(** ** JavaScript strings *)

Definition jsstring := list Z.

(** A Rocq ASCII literal as a JS string (one code unit per character). *)
Definition js (s : string) : jsstring :=
  map (fun a => Z.of_nat (nat_of_ascii a)) (list_ascii_of_string s).

Definition jseqb (a b : jsstring) : bool :=
  if list_eq_dec Z.eq_dec a b then true else false.

(** ECMAScript LineTerminator: LF, CR, LS, PS. *)
Definition is_line_terminator (c : Z) : bool :=
  (c =? 10) || (c =? 13) || (c =? 8232) || (c =? 8233).

(** ECMAScript WhiteSpace (TAB, VT, FF, ZWNBSP and the Zs code units). *)
Definition is_white_space (c : Z) : bool :=
  (c =? 9) || (c =? 11) || (c =? 12) || (c =? 32) || (c =? 160)
  || (c =? 5760) || ((8192 <=? c) && (c <=? 8202)) || (c =? 8239)
  || (c =? 8287) || (c =? 12288) || (c =? 65279).

(** The regex class [\s], also the set stripped by [String.prototype.trim]. *)
Definition is_ws (c : Z) : bool := is_white_space c || is_line_terminator c.

Fixpoint drop_ws (s : jsstring) : jsstring :=
  match s with
  | c :: t => if is_ws c then drop_ws t else s
  | [] => []
  end.

(** [s.trim()] *)
Definition trim (s : jsstring) : jsstring := rev (drop_ws (rev (drop_ws s))).

(** [s.replace(/\s{2,}/g, r)]: every maximal run of at least two
    whitespace code units is replaced by [r]; a single one is kept. *)
Definition flush_run (r pending : jsstring) : jsstring :=
  match pending with
  | [] => []
  | [c] => [c]
  | _ => r
  end.

Fixpoint replace_ws_runs (r pending s : jsstring) : jsstring :=
  match s with
  | [] => flush_run r pending
  | c :: t =>
      if is_ws c then replace_ws_runs r (pending ++ [c]) t
      else flush_run r pending ++ c :: replace_ws_runs r [] t
  end.

(** [s.includes(w)] *)
Fixpoint starts_with (s w : jsstring) : bool :=
  match w, s with
  | [], _ => true
  | c :: w', d :: s' => (c =? d) && starts_with s' w'
  | _ :: _, [] => false
  end.

Fixpoint includes (s w : jsstring) : bool :=
  match s with
  | [] => starts_with [] w
  | _ :: t => starts_with s w || includes t w
  end.

(** [s.split(sep)] for a one-code-unit separator. *)
Fixpoint split_on (sep : Z) (s : jsstring) : list jsstring :=
  match s with
  | [] => [[]]
  | c :: t =>
      if c =? sep then [] :: split_on sep t
      else match split_on sep t with
           | w :: ws => (c :: w) :: ws
           | [] => [[c]]
           end
  end.

(** [parts.join(sep)] *)
Fixpoint join_with (sep : Z) (parts : list jsstring) : jsstring :=
  match parts with
  | [] => []
  | [p] => p
  | p :: ps => p ++ sep :: join_with sep ps
  end.

(** ** [hash] (src/docs/index.md, lines 119-127) *)

(** ECMAScript ToInt32 on an integral Number. *)
Definition toInt32 (x : Z) : Z :=
  let m := x mod 2 ^ 32 in
  if m >=? 2 ^ 31 then m - 2 ^ 32 else m.

(** [a << 5] *)
Definition shl5 (a : Z) : Z := toInt32 (Z.shiftl (toInt32 a) 5).

(** One loop iteration:
    [hash = (hash << 5) - hash + char; hash = hash & hash].
    The subtraction and addition are exact on doubles here
    (|values| < 2^53). *)
Definition hash_step (h c : Z) : Z :=
  let h1 := shl5 h - h + c in
  Z.land (toInt32 h1) (toInt32 h1).

Definition hash (str : jsstring) : Z := fold_left hash_step str 0.

(** The classic rolling string hash as the spec words it:
    hash_0 = 0, hash_{i+1} = int32(hash_i * 31 + charCode_i). *)
Definition classic_string_hash (str : jsstring) : Z :=
  fold_left (fun h c => toInt32 (h * 31 + c)) str 0.

(** ** [getDate] (src/docs/index.md, lines 69-77) *)

(** Greedy [.*] followed by the lookahead [(?=-)], anchored at the start
    of [s]: the largest [k] such that [s[k]] is ['-'] and [s[0..k)]
    contains no line terminator. *)
Fixpoint last_dash_on_line (s : jsstring) : option nat :=
  match s with
  | [] => None
  | c :: t =>
      if is_line_terminator c then None
      else match last_dash_on_line t with
           | Some k => Some (S k)
           | None => if c =? 45 then Some O else None
           end
  end.

(** [/.*(?=-)/.exec(s)]: leftmost start position, greedy match. *)
Fixpoint exec_first_line (s : jsstring) : option jsstring :=
  match last_dash_on_line s with
  | Some k => Some (firstn k s)
  | None =>
      match s with
      | [] => None
      | _ :: t => exec_first_line t
      end
  end.

Definition getDate (dateString : jsstring) : jsstring :=
  let clean := replace_ws_runs [] [] dateString in
  match exec_first_line clean with
  | Some m => trim m
  | None => []
  end.

(** The date field as the spec words it: whitespace runs collapsed to one
    space, then the text up to the first ['-']. *)
Fixpoint take_until_dash (s : jsstring) : jsstring :=
  match s with
  | [] => []
  | c :: t => if c =? 45 then [] else c :: take_until_dash t
  end.

Definition getDate_spec (dateString : jsstring) : jsstring :=
  trim (take_until_dash (replace_ws_runs [32] [] dateString)).

(** ** [getNameVariations] (src/unnamed/part_001, lines 154-164) *)

Definition getNameVariations (fullName : jsstring) : list jsstring :=
  let names := split_on 32 fullName in
  if Nat.eqb (List.length names) 1 then [fullName]
  else [ last names [];
         join_with 32 (skipn (List.length names - 2)%nat names);
         nth 0 names [] ++ 32 :: last names [];
         nth 0 names [];
         fullName ].

Example getDate_sample :
  getDate (js "January 20, 2024 - Location: Jenin - West Bank")
  = js "January 20, 2024 - Location: Jenin".
Proof. reflexivity. Qed.

Example getNameVariations_sample :
  getNameVariations (js "Ahmad Ali Hasan")
  = [js "Hasan"; js "Ali Hasan"; js "Ahmad Hasan"; js "Ahmad"; js "Ahmad Ali Hasan"].
Proof. reflexivity. Qed.

Example hash_sample : hash (js "ab") = 3105.
Proof. reflexivity. Qed.

(** ** Data of the harvesting pipeline *)

(** One victim object of the [get_victims] tool schema. *)
Record Victim := mkVictim {
  v_name : jsstring; v_dod : jsstring; v_location : jsstring; v_age : jsstring;
  v_sex : option jsstring }.

(** Files written by the pipeline (paths of src/docs/index.md):
    [${dir}/${hashed}.html], [${dir}/${hashed}.json],
    [./sources/${domain}/${article}?page=${page}.html],
    [${dir}/page_${page}.json] and [${dir}/all.json]. *)
Inductive path :=
| PHtml (dir : jsstring) (hashed : Z)
| PMeta (dir : jsstring) (hashed : Z)
| PSource (page : nat)
| PPage (page : nat)
| PAll.

Definition path_eq_dec (p q : path) : {p = q} + {p <> q}.
Proof. decide equality; first [apply Nat.eq_dec | apply Z.eq_dec | apply (list_eq_dec Z.eq_dec)]. Defined.

(** [{ headline, date, link, htmlFile, victims }]: the object pushed to the
    result list and, serialised, the content of the [.json] cache file.
    [victims = None] stands for [null] / [undefined]. *)
Record Article := mkArticle {
  a_headline : jsstring; a_date : jsstring; a_link : jsstring;
  a_htmlFile : path; a_victims : option (list Victim) }.

Inductive FileC :=
| FText (s : jsstring)            (* raw HTML *)
| FMeta (a : Article)             (* JSON.stringify of one article *)
| FArticles (l : list Article).   (* JSON.stringify of a result list *)

(** [{ link, headline, date }] built by [getDciLinksFromLanding];
    [headline] is [undefined] when the entry has no [h3]. *)
Record Summary := mkSummary {
  s_link : jsstring; s_headline : option jsstring; s_date : jsstring }.

(** What JSDOM yields for one [.featured] element: the [href] attribute of
    its first [a] ([None]: no [a]; [Some None]: no [href]), the
    [textContent] of its [h3], and the [textContent] of the first child of
    its first [.date] element. *)
Record Featured := mkFeatured {
  f_anchor : option (option jsstring); f_h3 : option jsstring;
  f_date : option jsstring }.

(** URLs handed to [fetchHTML]: a listing page or a detail link. *)
Inductive Url := PageUrl (page : nat) | LinkUrl (link : jsstring).

(** Value of [await getPageAndConvertToData(html)]: resolved with the
    result of [callClosedAi] ([undefined] on an API error, a non-ok status
    or a malformed reply, all caught inside it), or rejected (e.g.
    [htmlToText] on a page without [.content-box]). *)
Record Response := mkResponse {
  r_name : jsstring; r_arguments : option (list Victim) }.

Inductive Outcome := Resolved (r : option Response) | Rejected.

(** Host behaviour the module relies on. *)
Record Env := mkEnv {
  dateParse : jsstring -> option Z;   (* new Date(s).getTime(); None = NaN *)
  dirOf : jsstring -> jsstring;        (* `${year}/${month}` of new Date(date) *)
  toLowerCase : jsstring -> jsstring;
  fetchHTML : Url -> jsstring;         (* '' when the fetch fails *)
  featuredOf : jsstring -> list Featured;  (* querySelectorAll('.featured') *)
  getPageAndConvertToData : jsstring -> Outcome;
  keywords : list jsstring }.

Inductive Event := EFetch (u : Url).

(** Module state: the file system, the module-level [done] flag, and the
    network requests made so far (newest first). *)
Record World := mkWorld {
  fs : path -> option FileC; done : bool; log : list Event }.

Definition writeFile (w : World) (p : path) (c : FileC) : World :=
  mkWorld (fun q => if path_eq_dec q p then Some c else fs w q) (done w) (log w).

Definition emit (w : World) (e : Event) : World :=
  mkWorld (fs w) (done w) (e :: log w).

Definition set_done (w : World) (d : bool) : World := mkWorld (fs w) d (log w).

Definition initWorld (f : path -> option FileC) : World := mkWorld f false [].

(** [readFile(p, 'utf8')] for an HTML file; [None]: the read throws. *)
Definition readText (c : option FileC) : option jsstring :=
  match c with Some (FText s) => Some s | _ => None end.

(** [JSON.parse(readFile(metaFile))]; [None]: read or parse throws. *)
Definition readMeta (c : option FileC) : option Article :=
  match c with Some (FMeta a) => Some a | _ => None end.

Inductive Res (A : Type) := Ok (a : A) | TypeError.
Arguments Ok {A} a.
Arguments TypeError {A}.

(** ** [getDciLinksFromLanding] (src/docs/index.md, lines 81-114) *)

Definition apex : jsstring := js "https://www.dci-palestine.org".

(** [_link?.getAttribute('href')] in a string concatenation. *)
Definition href_text (a : option (option jsstring)) : jsstring :=
  match a with
  | None => js "undefined"
  | Some None => js "null"
  | Some (Some h) => h
  end.

(** [a.getTime() > b.getTime()] with NaN for an invalid date. *)
Definition gt_time (a b : option Z) : bool :=
  match a, b with
  | Some x, Some y => y <? x
  | _, _ => false
  end.

Section Landing.
Variable E : Env.

Definition cutoff : option Z := dateParse E (js "October 1, 2023").

(** The [relevant] test of the reducer, on the raw date field. *)
Definition relevant (dateDirty : jsstring) : bool :=
  gt_time (dateParse E (getDate dateDirty)) cutoff.

(** The reducer, threading the module-level [done] flag; a missing date
    field makes [getDate(undefined)] throw. *)
Fixpoint landing_fold (acc : list Summary) (d : bool) (items : list Featured)
  : Res (list Summary) * bool :=
  match items with
  | [] => (Ok acc, d)
  | article :: rest =>
      match f_date article with
      | None => (TypeError, d)
      | Some dateDirty =>
          let headline := option_map trim (f_h3 article) in
          let link := apex ++ href_text (f_anchor article) in
          let date := getDate dateDirty in
          if relevant dateDirty
          then landing_fold (acc ++ [mkSummary link headline date]) d rest
          else landing_fold acc true rest
      end
  end.

Definition getDciLinksFromLanding (d : bool) (html : jsstring)
  : Res (list Summary) * bool :=
  landing_fold [] d (featuredOf E html).

End Landing.

(** ** [getAndStoreArticlesFromLinks] (src/docs/index.md, lines 302-360) *)

(** The hard-coded keyword list of the module. *)
Definition dci_keywords : list jsstring :=
  map js ["shoot"; "shot"; "kill"; "murder"; "martyr"; "fire"; "weapon";
          "dead"; "died"; "death"; "injur"; "wound"; "hurt"; "casualt";
          "fatal"; "bomb"; "explo"; "strike"; "attack"; "viol"]%string.

(** [data['arguments']] after
    [data = (await getPageAndConvertToData(html)) || {arguments: null}],
    a rejection being caught with [data] left at its initial value. *)
Definition victims_of (o : Outcome) : option (list Victim) :=
  match o with
  | Resolved (Some r) => r_arguments r
  | Resolved None => None
  | Rejected => None
  end.

Section Store.
Variable E : Env.

Definition keyword_match (headline : jsstring) : bool :=
  existsb (fun word => includes (toLowerCase E headline) word) (keywords E).

Definition htmlFileOf (headline date : jsstring) : path :=
  PHtml (dirOf E date) (hash headline).

Definition metaFileOf (headline date : jsstring) : path :=
  PMeta (dirOf E date) (hash headline).

(** The body of the async reducer for one payload. *)
Definition processArticle (w : World) (acc : list Article) (payload : Summary)
  : Res (list Article) * World :=
  let link := s_link payload in
  let date := s_date payload in
  match keywords E, s_headline payload with
  | [], _ => (Ok acc, w)              (* [].some(...) never calls back *)
  | _ :: _, None => (TypeError, w)    (* undefined.toLowerCase() *)
  | _ :: _, Some headline =>
      if keyword_match headline then
        let htmlFile := htmlFileOf headline date in
        let metaFile := metaFileOf headline date in
        match readMeta (fs w metaFile) with
        | Some {| a_victims := Some victims |} =>
            (Ok (acc ++ [mkArticle headline date link htmlFile (Some victims)]), w)
        | _ =>
            let html := fetchHTML E (LinkUrl link) in
            let w1 := emit w (EFetch (LinkUrl link)) in
            let victims := victims_of (getPageAndConvertToData E html) in
            let art := mkArticle headline date link htmlFile victims in
            let w2 := writeFile (writeFile w1 htmlFile (FText html)) metaFile (FMeta art) in
            (Ok (acc ++ [art]), w2)
        end
      else (Ok acc, w)
  end.

(** The promise chain of [links.reduce]: payloads run in order and a
    rejection skips every later payload. *)
Fixpoint store_fold (w : World) (acc : list Article) (links : list Summary)
  : Res (list Article) * World :=
  match links with
  | [] => (Ok acc, w)
  | payload :: rest =>
      match processArticle w acc payload with
      | (Ok acc', w') => store_fold w' acc' rest
      | (TypeError, w') => (TypeError, w')
      end
  end.

Definition getAndStoreArticlesFromLinks (w : World) (links : list Summary)
  : Res (list Article) * World :=
  store_fold w [] links.

End Store.

(** ** [getArticlesRecursively] (src/docs/index.md, lines 374-420) *)

(** One invocation of [getArticlesRecursively] either returns ([Ret]) or
    makes the recursive call for the next page ([Call]). *)
Inductive Cfg :=
| Call (page : nat) (acc : list Article) (w : World)
| Ret (r : Res (list Article)) (w : World).

Section Driver.
Variable E : Env.
Variable stop : nat.

(** [html = readFile(file)], or [fetchHTML(`${source}?page=${page}`)] when
    the read throws. *)
Definition readOrFetchPage (w : World) (page : nat) : jsstring * World :=
  match readText (fs w (PSource page)) with
  | Some h => (h, w)
  | None => (fetchHTML E (PageUrl page), emit w (EFetch (PageUrl page)))
  end.

Definition step (c : Cfg) : Cfg :=
  match c with
  | Ret r w => Ret r w
  | Call page acc w =>
      if negb (done w) && Nat.leb page stop then
        let (html, w1) := readOrFetchPage w page in
        match html with
        | [] => Ret (Ok acc) w1
        | _ :: _ =>
            let (links, d) := getDciLinksFromLanding E (done w1) html in
            let w2 := set_done w1 d in
            match links with
            | TypeError => Ret TypeError w2
            | Ok linksForPage =>
                match getAndStoreArticlesFromLinks E w2 linksForPage with
                | (TypeError, w3) => Ret TypeError w3
                | (Ok articlesForPage, w3) =>
                    let w4 := writeFile w3 (PPage page) (FArticles articlesForPage) in
                    let w5 := writeFile w4 (PSource page) (FText html) in
                    Call (S page) (acc ++ articlesForPage) w5
                end
            end
        end
      else Ret (Ok acc) (writeFile w PAll (FArticles acc))
  end.

Fixpoint run (n : nat) (c : Cfg) : Cfg :=
  match n with
  | O => c
  | S n' => run n' (step c)
  end.

(** Invocations that take the page-processing branch. *)
Definition enters (c : Cfg) : bool :=
  match c with
  | Call page _ w => negb (done w) && Nat.leb page stop
  | Ret _ _ => false
  end.

Fixpoint pages_entered (n : nat) (c : Cfg) : nat :=
  match n with
  | O => O
  | S n' => ((if enters c then 1 else 0) + pages_entered n' (step c))%nat
  end.

(** A whole process run: [getArticlesRecursively({ page: 1, stop })] with
    [done] initially [false]; [S (S stop)] invocations always suffice
    (see [C8]). *)
Definition pipeline (f : path -> option FileC) : Cfg :=
  run (S (S stop)) (Call 1 [] (initWorld f)).

End Driver.

Definition is_ret (c : Cfg) : bool := match c with Ret _ _ => true | Call _ _ _ => false end.

Definition detail_fetches (l : list Event) : nat :=
  List.length (filter (fun e => match e with EFetch (LinkUrl _) => true | _ => false end) l).

(** ** Concrete host behaviour used to run examples *)

(** [String.prototype.toLowerCase] on the ASCII range. *)
Definition ascii_lower (s : jsstring) : jsstring :=
  map (fun c => if (65 <=? c) && (c <=? 90) then c + 32 else c) s.

Fixpoint digits_value (acc : Z) (s : jsstring) : option Z :=
  match s with
  | [] => Some acc
  | c :: t => if (48 <=? c) && (c <=? 57) then digits_value (acc * 10 + (c - 48)) t else None
  end.

Definition parse_number (s : jsstring) : option Z :=
  match s with [] => None | _ => digits_value 0 s end.

Fixpoint index_of (x : jsstring) (l : list jsstring) (i : Z) : option Z :=
  match l with
  | [] => None
  | y :: t => if jseqb x y then Some i else index_of x t (i + 1)
  end.

Definition month_names : list jsstring :=
  map js ["January"; "February"; "March"; "April"; "May"; "June"; "July";
          "August"; "September"; "October"; "November"; "December"]%string.

(** An order-preserving key of a calendar date, standing for its time
    value. *)
Definition date_key (y m d : Z) : Z := y * 10000 + m * 100 + d.

(** [new Date(s).getTime()] on the [Month D, YYYY] form of the listing
    (V8 parses it as local midnight of that day); other strings give NaN. *)
Definition parse_mdy (s : jsstring) : option Z :=
  match split_on 32 s with
  | [m; d; y] =>
      match index_of m month_names 1, rev d, parse_number y with
      | Some mi, 44 :: dr, Some yy =>
          match parse_number (rev dr) with
          | Some dd => if (1 <=? dd) && (dd <=? 31) then Some (date_key yy mi dd) else None
          | None => None
          end
      | _, _, _ => None
      end
  | _ => None
  end.

Example parse_mdy_sample :
  parse_mdy (js "January 20, 2024") = Some (date_key 2024 1 20)
  /\ parse_mdy (js "October 1, 2023") = Some (date_key 2023 10 1)
  /\ parse_mdy [] = None.
Proof. repeat split; reflexivity. Qed.

(** A host whose listing pages all show [items] and whose every fetch
    succeeds with a non-empty page. *)
Definition test_env (items : list Featured) (conv : jsstring -> Outcome)
  (kws : list jsstring) : Env :=
  mkEnv parse_mdy (fun _ => js "2024/January") ascii_lower
        (fun u => match u with PageUrl _ => js "<listing>" | LinkUrl l => js "<article>" ++ l end)
        (fun _ => items) conv kws.

Definition featured (href headline dateField : string) : Featured :=
  mkFeatured (Some (Some (js href))) (Some (js headline)) (Some (js dateField)).

Definition empty_fs : path -> option FileC := fun _ => None.

Definition one_victim : list Victim :=
  [mkVictim (js "Tawfiq") (js "January 19, 2024") (js "Ramallah") (js "17") None].

Definition conv_ok : jsstring -> Outcome :=
  fun _ => Resolved (Some (mkResponse (js "get_victims") (Some one_victim))).

Definition conv_fail : jsstring -> Outcome := fun _ => Resolved None.

(** ** [clean] (src/docs/index.md, line 262; src/sites/dci-palestine.org.js, lines 516-517) *)

(** [str.replace(/\s{2,}/g, ' ').trim()] *)
Definition clean (str : jsstring) : jsstring := trim (replace_ws_runs [32] [] str).

(** ** [getDate] of src/sites/dci-palestine.org.js (lines 30-37) and
    src/unnamed/part_001 (lines 39-45) *)

(** [s.replace(/\s{2,}|,/g, '')]: at each position the first alternative
    takes the maximal whitespace run when it has at least two code units,
    the second a comma; a single whitespace code unit is kept. *)
Fixpoint replace_ws_runs_or_comma (pending s : jsstring) : jsstring :=
  match s with
  | [] => flush_run [] pending
  | c :: t =>
      if is_ws c then replace_ws_runs_or_comma (pending ++ [c]) t
      else flush_run [] pending ++ (if c =? 44 then [] else [c])
           ++ replace_ws_runs_or_comma [] t
  end.

Definition getDate_dci (dateString : jsstring) : jsstring :=
  let clean := replace_ws_runs_or_comma [] dateString in
  match exec_first_line clean with
  | Some m => trim m
  | None => []
  end.

(** ** Post-processing of [fetchHTML] (src/docs/index.md, lines 34-54) *)

(** Length of the prefix of [s] up to and including the first occurrence
    of [close]. *)
Fixpoint find_after (close s : jsstring) : option nat :=
  if starts_with s close then Some (List.length close)
  else match s with
       | [] => None
       | _ :: t => option_map S (find_after close t)
       end.

(** [html.replace(/<tag([\s\S]*?)<\/tag>/gm, '')] with [openp = "<tag"]
    and [close = "</tag>"]: from each position not inside an earlier
    match, an opening [openp] is deleted together with everything up to
    the first [close] after it; without such a [close] nothing matches
    there.  [skip] counts the code units of the current match still to be
    deleted. *)
Fixpoint remove_blocks (openp close : jsstring) (skip : nat) (s : jsstring) : jsstring :=
  match s with
  | [] => []
  | c :: t =>
      match skip with
      | S k => remove_blocks openp close k t
      | O =>
          if starts_with s openp then
            match find_after close (skipn (List.length openp) s) with
            | Some j => remove_blocks openp close (List.length openp + j - 1) t
            | None => c :: remove_blocks openp close O t
            end
          else c :: remove_blocks openp close O t
      end
  end.

(** After a line feed, [\s*\n] with a greedy [\s*]: the length of the
    longest prefix of [s] made of whitespace and ending with a line feed. *)
Fixpoint ws_through_last_lf (s : jsstring) : option nat :=
  match s with
  | [] => None
  | c :: t =>
      if is_ws c then
        match ws_through_last_lf t with
        | Some k => Some (S k)
        | None => if c =? 10 then Some 1%nat else None
        end
      else None
  end.

(** [html.replace(/\n\s*\n/g, '')] *)
Fixpoint remove_blank_lines (skip : nat) (s : jsstring) : jsstring :=
  match s with
  | [] => []
  | c :: t =>
      match skip with
      | S k => remove_blank_lines k t
      | O =>
          if c =? 10 then
            match ws_through_last_lf t with
            | Some k => remove_blank_lines k t
            | None => c :: remove_blank_lines O t
            end
          else c :: remove_blank_lines O t
      end
  end.

(** [fetchHTML(url)]: [fetched] is [await (await fetch(url)).text()]
    ([None]: it throws), [scraped] is [await scrapePage(url)] ([None]: it
    throws), used when the fetched body is empty; a throw is caught and
    gives ['']. *)
Definition fetchHTML_js (fetched scraped : option jsstring) : jsstring :=
  let body := match fetched with
              | Some [] => scraped
              | other => other
              end in
  match body with
  | None => []
  | Some html =>
      let html := remove_blocks (js "<style") (js "</style>") O html in
      let html := remove_blocks (js "<script") (js "</script>") O html in
      remove_blank_lines O html
  end.

(** ** The per-name search CLI (src/unnamed/part_001, lines 166-222) *)

(** [encodeURIComponent]: code units outside the unescaped set are
    encoded as the UTF-8 bytes of their code point, each as [%XY] with
    upper-case hex digits; an unpaired surrogate throws a [URIError]
    ([None]). *)
Definition uri_unreserved (c : Z) : bool :=
  ((65 <=? c) && (c <=? 90)) || ((97 <=? c) && (c <=? 122)) || ((48 <=? c) && (c <=? 57))
  || existsb (Z.eqb c) [45; 95; 46; 33; 126; 42; 39; 40; 41].

Definition hex_digit (n : Z) : Z := if n <? 10 then 48 + n else 55 + n.

Definition pct (b : Z) : jsstring := [37; hex_digit (b / 16); hex_digit (b mod 16)].

Definition utf8 (cp : Z) : list Z :=
  if cp <? 128 then [cp]
  else if cp <? 2048 then [192 + cp / 64; 128 + cp mod 64]
  else if cp <? 65536 then [224 + cp / 4096; 128 + (cp / 64) mod 64; 128 + cp mod 64]
  else [240 + cp / 262144; 128 + (cp / 4096) mod 64; 128 + (cp / 64) mod 64; 128 + cp mod 64].

Definition is_high (c : Z) : bool := (55296 <=? c) && (c <=? 56319).
Definition is_low (c : Z) : bool := (56320 <=? c) && (c <=? 57343).

Fixpoint encodeURIComponent (s : jsstring) : option jsstring :=
  match s with
  | [] => Some []
  | c :: t =>
      if uri_unreserved c then option_map (cons c) (encodeURIComponent t)
      else if is_low c then None
      else if is_high c then
        match t with
        | d :: t' =>
            if is_low d then
              option_map (app (flat_map pct (utf8 ((c - 55296) * 1024 + (d - 56320) + 65536))))
                         (encodeURIComponent t')
            else None
        | [] => None
        end
      else option_map (app (flat_map pct (utf8 c))) (encodeURIComponent t)
  end.

(** A string of UTF-16 code units. *)
Definition code_units (s : jsstring) : bool := forallb (fun c => (0 <=? c) && (c <? 65536)) s.






Section Search.

(** [String.prototype.toUpperCase] of one code unit (Unicode tables). *)
Variable upper : Z -> list Z.










End Search.

(** Looking a key up in an association list. *)
Fixpoint assoc {A} (k : jsstring) (l : list (jsstring * A)) : option A :=
  match l with
  | [] => None
  | (k', v) :: t => if jseqb k k' then Some v else assoc k t
  end.

(** The article list stored in [page_${i}.json]. *)
Definition page_file (f : path -> option FileC) (i : nat) : list Article :=
  match f (PPage i) with Some (FArticles l) => l | _ => [] end.

(** ** Shapes of strings used in the statements below *)

(** No whitespace code unit at either end. *)
Definition edge_ws_free (t : jsstring) : Prop :=
  (forall c, hd_error t = Some c -> is_ws c = false)
  /\ (forall c, hd_error (rev t) = Some c -> is_ws c = false).

(** Two adjacent whitespace code units. *)
Definition adjacent_ws (t : jsstring) : Prop :=
  exists l1 c d l2, t = l1 ++ c :: d :: l2 /\ is_ws c = true /\ is_ws d = true.

Fixpoint no_double_ws (s : jsstring) : bool :=
  match s with
  | c :: ((d :: _) as t) => negb (is_ws c && is_ws d) && no_double_ws t
  | _ => true
  end.

(** Two line feeds with only whitespace between them (a blank line). *)
Definition blank_line (t : jsstring) : Prop :=
  exists l1 w l2, t = l1 ++ 10 :: w ++ 10 :: l2 /\ Forall (fun c => is_ws c = true) w.

(** Scanner for [blank_line]: [after_lf] holds when a line feed followed
    by whitespace only has just been read. *)
Fixpoint lf_gap_free (after_lf : bool) (s : jsstring) : bool :=
  match s with
  | [] => true
  | c :: t =>
      if c =? 10 then negb after_lf && lf_gap_free true t
      else if is_ws c then lf_gap_free after_lf t
      else lf_gap_free false t
  end.

(** ** Lemmas on 32-bit arithmetic *)

Lemma toInt32_shift (x : Z) : exists j, toInt32 x = x + j * 2 ^ 32.
Proof.
  unfold toInt32.
  pose proof (Z.div_mod x (2 ^ 32) ltac:(lia)) as Hd.
  destruct (x mod 2 ^ 32 >=? 2 ^ 31).
  - exists (- (x / 2 ^ 32) - 1). lia.
  - exists (- (x / 2 ^ 32)). lia.
Qed.

Lemma toInt32_congr (x y j : Z) : x = y + j * 2 ^ 32 -> toInt32 x = toInt32 y.
Proof.
  intros ->. unfold toInt32. rewrite Z_mod_plus_full. reflexivity.
Qed.

Lemma hash_step_classic (h c : Z) : hash_step h c = toInt32 (h * 31 + c).
Proof.
  unfold hash_step, shl5. rewrite Z.land_diag.
  rewrite Z.shiftl_mul_pow2 by lia.
  destruct (toInt32_shift h) as [j1 ->].
  destruct (toInt32_shift ((h + j1 * 2 ^ 32) * 2 ^ 5)) as [j2 ->].
  apply toInt32_congr with (j := 32 * j1 + j2). lia.
Qed.

(** ** Lemmas on strings *)

Lemma split_on_no_sep (sep : Z) (s : jsstring) : ~ In sep s -> split_on sep s = [s].
Proof.
  induction s as [|c t IH]; intros Hn; [reflexivity|].
  simpl. destruct (Z.eqb_spec c sep) as [->|Hne].
  - exfalso. apply Hn. left. reflexivity.
  - rewrite IH by (intros Hi; apply Hn; right; exact Hi). reflexivity.
Qed.

(** The first line of a string (up to its first line terminator). *)
Fixpoint first_line (s : jsstring) : jsstring :=
  match s with
  | [] => []
  | c :: t => if is_line_terminator c then [] else c :: first_line t
  end.

Definition no_dash (s : jsstring) : bool := forallb (fun c => negb (c =? 45)) s.

Lemma last_dash_none (s : jsstring) : no_dash (first_line s) = true -> last_dash_on_line s = None.
Proof.
  induction s as [|c t IH]; [reflexivity|].
  simpl. destruct (is_line_terminator c); [reflexivity|].
  simpl. intros H. apply andb_prop in H as [Hc Ht].
  rewrite (IH Ht). destruct (c =? 45); [discriminate|reflexivity].
Qed.

Lemma last_dash_app (pre post : jsstring) :
  forallb (fun c => negb (is_line_terminator c)) pre = true ->
  no_dash (first_line post) = true ->
  last_dash_on_line (pre ++ 45 :: post) = Some (List.length pre).
Proof.
  intros Hpre Hpost. induction pre as [|c t IH].
  - simpl. rewrite (last_dash_none post Hpost). reflexivity.
  - simpl in Hpre. apply andb_prop in Hpre as [Hc Ht].
    simpl. destruct (is_line_terminator c); [discriminate|].
    rewrite (IH Ht). reflexivity.
Qed.

Lemma firstn_app_length {A} (l r : list A) : firstn (List.length l) (l ++ r) = l.
Proof. induction l; simpl; [reflexivity| now rewrite IHl]. Qed.

Lemma exec_first_line_eq (s : jsstring) :
  exec_first_line s =
  match last_dash_on_line s with
  | Some k => Some (firstn k s)
  | None => match s with [] => None | _ :: t => exec_first_line t end
  end.
Proof. destruct s; reflexivity. Qed.

(** * Claims *)

(** [C4] The cache key: [hash] is the classic rolling string hash
    (hash_0 = 0, hash_{i+1} = int32(hash_i * 31 + charCode_i)) of the
    headline code units, and the cache files of an article are named by
    the hash of its headline alone (its link does not enter). *)
Theorem hash_is_classic_string_hash (E : Env) (str date : jsstring) :
  hash str = classic_string_hash str
  /\ htmlFileOf E str date = PHtml (dirOf E date) (classic_string_hash str)
  /\ metaFileOf E str date = PMeta (dirOf E date) (classic_string_hash str).
Proof.
  assert (Hh : hash str = classic_string_hash str).
  { unfold hash, classic_string_hash. generalize 0.
    induction str as [|c t IH]; intros h; [reflexivity|].
    simpl. rewrite hash_step_classic. apply IH. }
  unfold htmlFileOf, metaFileOf. rewrite Hh. auto.
Qed.

(** [C6] (counterexample) [getDate] does not stop at the first ['-']: on a
    field with two hyphens on its first line it keeps the text up to the
    last one. *)
Lemma getDate_not_first_separator :
  getDate (js "January 20, 2024 - Location: Jenin - West Bank")
  <> getDate_spec (js "January 20, 2024 - Location: Jenin - West Bank").
Proof. vm_compute. discriminate. Qed.

(** [C6] (amended) [getDate] deletes every run of two or more whitespace
    code units; when the first line of the result contains a ['-'], it
    returns that line up to its last ['-'], trimmed.  The sample field
    ["January 20, 2024 \n - Location: West Bank"] yields
    ["January 20, 2024"], the date 2024-01-20. *)
Theorem getDate_up_to_last_dash (s pre post : jsstring)
  (Hclean : replace_ws_runs [] [] s = pre ++ 45 :: post)
  (Hpre : forallb (fun c => negb (is_line_terminator c)) pre = true)
  (Hpost : no_dash (first_line post) = true) :
  getDate s = trim pre
  /\ getDate (js "January 20, 2024 " ++ [10] ++ js " - Location: West Bank")
     = js "January 20, 2024"
  /\ parse_mdy (js "January 20, 2024") = Some (date_key 2024 1 20).
Proof.
  split; [|split; reflexivity].
  unfold getDate. rewrite Hclean, exec_first_line_eq.
  rewrite (last_dash_app pre post Hpre Hpost), firstn_app_length. reflexivity.
Qed.

Lemma getDate_up_to_last_dash_witness :
  getDate (js "May 3, 2024 - Jenin - West Bank") = js "May 3, 2024 - Jenin".
Proof.
  destruct (getDate_up_to_last_dash (js "May 3, 2024 - Jenin - West Bank")
              (js "May 3, 2024 - Jenin ") (js " West Bank")
              ltac:(reflexivity) ltac:(reflexivity) ltac:(reflexivity)) as [H _].
  rewrite H. reflexivity.
Defined.

(** [C10] [getNameVariations] returns a non-empty list containing the full
    name; a name without a space yields exactly [[fullName]]. *)
Theorem getNameVariations_contains_name (fullName : jsstring) (Hne : fullName <> []) :
  getNameVariations fullName <> []
  /\ In fullName (getNameVariations fullName)
  /\ (~ In 32 fullName -> getNameVariations fullName = [fullName]).
Proof.
  unfold getNameVariations.
  split; [|split].
  - destruct (Nat.eqb _ 1); discriminate.
  - destruct (Nat.eqb _ 1); simpl; tauto.
  - intros Hn. rewrite (split_on_no_sep 32 fullName Hn). reflexivity.
Qed.

Lemma getNameVariations_contains_name_witness :
  js "Ahmad" <> [] /\ getNameVariations (js "Ahmad") = [js "Ahmad"].
Proof.
  split; [discriminate|].
  destruct (getNameVariations_contains_name (js "Ahmad") ltac:(discriminate)) as [_ [_ H]].
  apply H. simpl. intros Hi. repeat (destruct Hi as [Hi|Hi]; [discriminate Hi|]). exact Hi.
Defined.

(** ** Lemmas on the listing reducer and the driver *)

Definition date_field (it : Featured) : jsstring :=
  match f_date it with Some s => s | None => [] end.

Definition summary_of (it : Featured) : Summary :=
  mkSummary (apex ++ href_text (f_anchor it)) (option_map trim (f_h3 it))
            (getDate (date_field it)).

Definition past_cutoff (E : Env) (it : Featured) : bool :=
  negb (relevant E (date_field it)).

Lemma landing_fold_ok (E : Env) (acc : list Summary) (d : bool) (items : list Featured) :
  Forall (fun it => f_date it <> None) items ->
  landing_fold E acc d items =
  (Ok (acc ++ map summary_of (filter (fun it => relevant E (date_field it)) items)),
   d || existsb (past_cutoff E) items).
Proof.
  intros Hall. revert acc d.
  induction Hall as [|it rest Hit Hrest IH]; intros acc d.
  - simpl. rewrite app_nil_r, orb_false_r. reflexivity.
  - destruct (f_date it) as [dd|] eqn:Hd; [|contradiction].
    assert (Hdf : date_field it = dd) by (unfold date_field; now rewrite Hd).
    assert (Hs : summary_of it = mkSummary (apex ++ href_text (f_anchor it))
                   (option_map trim (f_h3 it)) (getDate dd))
      by (unfold summary_of; now rewrite Hdf).
    simpl. rewrite Hd. unfold past_cutoff at 1. rewrite Hdf.
    destruct (relevant E dd) eqn:Hr; simpl.
    + rewrite IH, Hs, <- app_assoc. reflexivity.
    + rewrite IH, orb_true_r. reflexivity.
Qed.

Lemma landing_fold_flag (E : Env) (acc : list Summary) (d : bool) (items : list Featured)
  (l : list Summary) (d' : bool) :
  landing_fold E acc d items = (Ok l, d') -> d' = d || existsb (past_cutoff E) items.
Proof.
  revert acc d. induction items as [|it rest IH]; intros acc d H.
  - simpl in H. inversion H. rewrite orb_false_r. reflexivity.
  - simpl in H. destruct (f_date it) as [dd|] eqn:Hd; [|discriminate].
    assert (Hdf : date_field it = dd) by (unfold date_field; now rewrite Hd).
    simpl. unfold past_cutoff at 1. rewrite Hdf.
    destruct (relevant E dd); simpl.
    + exact (IH _ _ H).
    + rewrite (IH _ _ H). rewrite orb_true_r. reflexivity.
Qed.

Lemma processArticle_done (E : Env) (w : World) (acc : list Article) (s : Summary)
  (r : Res (list Article)) (w' : World) :
  processArticle E w acc s = (r, w') -> done w' = done w.
Proof.
  unfold processArticle. destruct (keywords E); [intros H; now inversion H|].
  destruct (s_headline s) as [h|]; [|intros H; now inversion H].
  destruct (keyword_match E h); [|intros H; now inversion H].
  destruct (readMeta _) as [[? ? ? ? [v|]]|]; intros H; inversion H; reflexivity.
Qed.

Lemma store_fold_done (E : Env) (w : World) (acc : list Article) (links : list Summary)
  (r : Res (list Article)) (w' : World) :
  store_fold E w acc links = (r, w') -> done w' = done w.
Proof.
  revert w acc. induction links as [|s rest IH]; intros w acc H.
  - simpl in H. now inversion H.
  - simpl in H. destruct (processArticle E w acc s) as [[acc'|] w1] eqn:Hp.
    + rewrite (IH _ _ H). exact (processArticle_done E w acc s _ _ Hp).
    + inversion H; subst. exact (processArticle_done E w acc s _ _ Hp).
Qed.

Lemma readOrFetchPage_done (E : Env) (w : World) (page : nat) :
  done (snd (readOrFetchPage E w page)) = done w.
Proof. unfold readOrFetchPage. destruct (readText _); reflexivity. Qed.

Lemma step_when_done (E : Env) (stop page : nat) (acc : list Article) (w : World) :
  done w = true ->
  step E stop (Call page acc w) = Ret (Ok acc) (writeFile w PAll (FArticles acc)).
Proof. intros H. simpl. rewrite H. reflexivity. Qed.

Lemma step_call_flag (E : Env) (stop page : nat) (acc : list Article) (w : World)
  (page' : nat) (acc' : list Article) (w' : World) :
  step E stop (Call page acc w) = Call page' acc' w' ->
  page' = S page
  /\ done w' = existsb (past_cutoff E) (featuredOf E (fst (readOrFetchPage E w page))).
Proof.
  simpl. destruct (negb (done w) && Nat.leb page stop) eqn:Hg; [|discriminate].
  apply andb_prop in Hg as [Hd _]. apply negb_true_iff in Hd.
  pose proof (readOrFetchPage_done E w page) as Hrd.
  destruct (readOrFetchPage E w page) as [html w1] eqn:Hr. simpl in Hrd |- *.
  destruct html as [|c t]; [discriminate|].
  destruct (getDciLinksFromLanding E (done w1) (c :: t)) as [links d] eqn:Hl.
  destruct links as [ls|]; [|discriminate].
  destruct (getAndStoreArticlesFromLinks E (set_done w1 d) ls) as [[arts|] w3] eqn:Hs;
    [|discriminate].
  intros H. inversion H; subst. split; [reflexivity|].
  apply store_fold_done in Hs. simpl. rewrite Hs. simpl.
  apply landing_fold_flag in Hl. rewrite Hl, Hrd, Hd. reflexivity.
Qed.

(** ** Sample listing pages *)

Definition page_unordered : list Featured :=
  [featured "/a" "Boy killed in Jenin" "January 5, 2024 - Location: Jenin";
   featured "/b" "Teen shot near Nablus" "September 20, 2023 - Location: Nablus";
   featured "/c" "Girl wounded in strike" "January 3, 2024 - Location: Gaza"].

Definition page_undated : list Featured :=
  [featured "/x" "Boy killed in Tubas" "Date unknown";
   featured "/y" "Girl wounded in strike" "January 3, 2024 - Location: Gaza"].

Lemma store_fold_no_keywords (E : Env) (Hk : keywords E = []) (w : World)
  (acc : list Article) (links : list Summary) :
  store_fold E w acc links = (Ok acc, w).
Proof.
  revert acc. induction links as [|s rest IH]; intros acc; [reflexivity|].
  simpl. unfold processArticle at 1. rewrite Hk. apply IH.
Qed.

(** [C1] (counterexample) A summary dated after the cutoff that follows a
    summary dated before it on the same page is still a candidate: on
    [page_unordered] the run fetches and keeps the article of ["/c"],
    listed after the past-cutoff ["/b"]. *)
Lemma later_summary_still_kept :
  match step (test_env page_unordered conv_ok dci_keywords) 3
             (Call 1 [] (initWorld empty_fs)) with
  | Call 2 acc w =>
      map a_link acc = [apex ++ js "/a"; apex ++ js "/c"] /\ done w = true
  | _ => False
  end.
Proof. vm_compute. split; reflexivity. Qed.

(** [C1] (amended) On a page whose entries all carry a date field, the
    candidates are exactly the summaries dated strictly after the cutoff,
    in page order, wherever they stand; any entry on or before the cutoff
    sets the stop flag, the candidates of the current page are still
    processed, and once the page is done the next invocation writes the
    final aggregate and returns without fetching another page. *)
Theorem listing_candidates_by_date (E : Env) (stop : nat) (d : bool) (html : jsstring)
  (Hdates : Forall (fun it => f_date it <> None) (featuredOf E html)) :
  getDciLinksFromLanding E d html =
    (Ok (map summary_of (filter (fun it => relevant E (date_field it)) (featuredOf E html))),
     d || existsb (past_cutoff E) (featuredOf E html))
  /\ (forall page acc w page' acc' w',
        step E stop (Call page acc w) = Call page' acc' w' ->
        existsb (past_cutoff E) (featuredOf E (fst (readOrFetchPage E w page))) = true ->
        page' = S page /\ done w' = true
        /\ step E stop (Call page' acc' w') = Ret (Ok acc') (writeFile w' PAll (FArticles acc'))).
Proof.
  split.
  - unfold getDciLinksFromLanding. rewrite (landing_fold_ok E [] d _ Hdates). reflexivity.
  - intros page acc w page' acc' w' Hs Hp.
    destruct (step_call_flag E stop page acc w page' acc' w' Hs) as [Hpg Hd].
    rewrite Hp in Hd. split; [exact Hpg|split; [exact Hd|]].
    apply step_when_done. exact Hd.
Qed.

Lemma listing_candidates_by_date_witness :
  getDciLinksFromLanding (test_env page_unordered conv_ok dci_keywords) false (js "<listing>")
  = (Ok [summary_of (nth 0 page_unordered (featured "" "" ""));
         summary_of (nth 2 page_unordered (featured "" "" ""))], true).
Proof.
  destruct (listing_candidates_by_date (test_env page_unordered conv_ok dci_keywords) 3 false
              (js "<listing>") ltac:(repeat constructor; discriminate)) as [H _].
  rewrite H. vm_compute. reflexivity.
Defined.

(** [C3] (counterexample) An entry whose date field does not parse is not
    a candidate, but it does set the stop flag. *)
Lemma unparseable_date_sets_flag :
  getDciLinksFromLanding (test_env page_undated conv_ok dci_keywords) false (js "<listing>")
  = (Ok [summary_of (nth 1 page_undated (featured "" "" ""))], true).
Proof. vm_compute. reflexivity. Qed.

(** [C3] (amended) An entry whose date field parses to an invalid date
    (NaN) is skipped as not relevant and is treated as past the cutoff:
    it sets the stop flag, the scan of the current page goes on, and the
    next invocation returns without fetching another page. *)
Theorem unparseable_date_stops (E : Env) (stop : nat) (acc : list Summary) (d : bool)
  (it : Featured) (rest : list Featured) (dd : jsstring)
  (Hd : f_date it = Some dd) (Hnan : dateParse E (getDate dd) = None) :
  landing_fold E acc d (it :: rest) = landing_fold E acc true rest
  /\ (forall page acc' w, done w = true ->
        step E stop (Call page acc' w) = Ret (Ok acc') (writeFile w PAll (FArticles acc'))).
Proof.
  split.
  - simpl. rewrite Hd. unfold relevant, gt_time. rewrite Hnan. reflexivity.
  - intros page acc' w Hw. apply step_when_done. exact Hw.
Qed.

Lemma unparseable_date_stops_witness :
  landing_fold (test_env page_undated conv_ok dci_keywords) [] false page_undated
  = landing_fold (test_env page_undated conv_ok dci_keywords) [] true (tl page_undated).
Proof.
  destruct (unparseable_date_stops (test_env page_undated conv_ok dci_keywords) 3 [] false
              (hd (featured "" "" "") page_undated) (tl page_undated) (js "Date unknown")
              ltac:(reflexivity) ltac:(vm_compute; reflexivity)) as [H _].
  exact H.
Defined.

(** [C5] (counterexample) With an empty keyword list a headline that
    would match anything is skipped: nothing is fetched or kept. *)
Lemma empty_keywords_skip :
  fst (getAndStoreArticlesFromLinks (test_env page_unordered conv_ok []) (initWorld empty_fs)
         [mkSummary (apex ++ js "/a") (Some (js "Boy killed in strike")) (js "January 5, 2024")])
  = Ok [].
Proof. reflexivity. Qed.

(** [C5] (amended) With an empty keyword list ([[].some(...)] is false)
    every summary is skipped: the page yields no article and the state
    (cache files, network requests) is unchanged. *)
Theorem empty_keywords_skip_all (E : Env) (Hk : keywords E = []) (w : World)
  (links : list Summary) :
  getAndStoreArticlesFromLinks E w links = (Ok [], w).
Proof. apply store_fold_no_keywords. exact Hk. Qed.

Lemma empty_keywords_skip_all_witness :
  getAndStoreArticlesFromLinks (test_env page_unordered conv_ok []) (initWorld empty_fs)
    [mkSummary (apex ++ js "/a") (Some (js "Boy killed in strike")) (js "January 5, 2024")]
  = (Ok [], initWorld empty_fs).
Proof. apply empty_keywords_skip_all. reflexivity. Defined.

(** ** Lemmas on one article and on the driver *)

Definition cached_victims (w : World) (p : path) : option (list Victim) :=
  match readMeta (fs w p) with Some a => a_victims a | None => None end.

Lemma processArticle_hit_or_write (E : Env) (w : World) (acc : list Article)
  (s : Summary) (h : jsstring)
  (Hh : s_headline s = Some h) (Hkw : keywords E <> []) (Hk : keyword_match E h = true) :
  match cached_victims w (metaFileOf E h (s_date s)) with
  | Some v =>
      processArticle E w acc s
      = (Ok (acc ++ [mkArticle h (s_date s) (s_link s) (htmlFileOf E h (s_date s)) (Some v)]), w)
  | None =>
      let html := fetchHTML E (LinkUrl (s_link s)) in
      let art := mkArticle h (s_date s) (s_link s) (htmlFileOf E h (s_date s))
                   (victims_of (getPageAndConvertToData E html)) in
      processArticle E w acc s
      = (Ok (acc ++ [art]),
         writeFile (writeFile (emit w (EFetch (LinkUrl (s_link s))))
                              (htmlFileOf E h (s_date s)) (FText html))
                   (metaFileOf E h (s_date s)) (FMeta art))
  end.
Proof.
  unfold cached_victims, processArticle.
  destruct (keywords E) as [|k ks]; [contradiction|].
  rewrite Hh, Hk.
  destruct (readMeta (fs w (metaFileOf E h (s_date s)))) as [[? ? ? ? [v|]]|]; reflexivity.
Qed.

Lemma writeFile_same (w : World) (p : path) (c : FileC) : fs (writeFile w p c) p = Some c.
Proof. simpl. destruct (path_eq_dec p p); [reflexivity|contradiction]. Qed.

Lemma writeFile_other (w : World) (p q : path) (c : FileC) :
  q <> p -> fs (writeFile w p c) q = fs w q.
Proof. intros H. simpl. destruct (path_eq_dec q p); [contradiction|reflexivity]. Qed.

Lemma html_meta_distinct (E : Env) (h d : jsstring) : htmlFileOf E h d <> metaFileOf E h d.
Proof. discriminate. Qed.

Lemma run_ret (E : Env) (stop n : nat) (r : Res (list Article)) (w : World) :
  run E stop n (Ret r w) = Ret r w.
Proof. induction n; [reflexivity|exact IHn]. Qed.

Lemma pages_entered_ret (E : Env) (stop n : nat) (r : Res (list Article)) (w : World) :
  pages_entered E stop n (Ret r w) = O.
Proof. induction n; [reflexivity|exact IHn]. Qed.

Lemma step_call_guard (E : Env) (stop page : nat) (acc : list Article) (w : World)
  (page' : nat) (acc' : list Article) (w' : World) :
  step E stop (Call page acc w) = Call page' acc' w' ->
  enters stop (Call page acc w) = true /\ page' = S page.
Proof.
  intros H. split.
  - simpl. simpl in H. destruct (negb (done w) && Nat.leb page stop); [reflexivity|discriminate].
  - exact (proj1 (step_call_flag E stop page acc w page' acc' w' H)).
Qed.

Lemma step_not_entered (E : Env) (stop page : nat) (acc : list Article) (w : World) :
  enters stop (Call page acc w) = false ->
  step E stop (Call page acc w) = Ret (Ok acc) (writeFile w PAll (FArticles acc)).
Proof. simpl. intros H. rewrite H. reflexivity. Qed.

Lemma run_reaches_ret (E : Env) (stop : nat) :
  forall k page acc w, (stop + 1 - page <= k)%nat ->
  is_ret (run E stop (S k) (Call page acc w)) = true.
Proof.
  induction k as [|k IH]; intros page acc w Hk.
  - change (is_ret (step E stop (Call page acc w)) = true).
    rewrite step_not_entered; [reflexivity|].
    simpl. destruct (Nat.leb_spec page stop); [lia|]. apply andb_false_r.
  - change (is_ret (run E stop (S k) (step E stop (Call page acc w))) = true).
    destruct (step E stop (Call page acc w)) as [page' acc' w'|r w'] eqn:Hs.
    + destruct (step_call_guard E stop page acc w page' acc' w' Hs) as [He ->].
      simpl in He. apply andb_prop in He as [_ Hle]. apply Nat.leb_le in Hle.
      apply (IH (S page) acc' w'). lia.
    + rewrite run_ret. reflexivity.
Qed.

Lemma pages_entered_bound (E : Env) (stop : nat) :
  forall n page acc w, (pages_entered E stop n (Call page acc w) <= stop + 1 - page)%nat.
Proof.
  induction n as [|n IH]; intros page acc w; [simpl; lia|].
  change (((if enters stop (Call page acc w) then 1 else 0)
           + pages_entered E stop n (step E stop (Call page acc w)) <= stop + 1 - page)%nat).
  destruct (enters stop (Call page acc w)) eqn:He.
  - simpl in He. apply andb_prop in He as [_ Hle]. apply Nat.leb_le in Hle.
    destruct (step E stop (Call page acc w)) as [page' acc' w'|r w'] eqn:Hs.
    + destruct (step_call_guard E stop page acc w page' acc' w' Hs) as [_ ->].
      specialize (IH (S page) acc' w'). lia.
    + rewrite pages_entered_ret. lia.
  - rewrite step_not_entered by exact He. rewrite pages_entered_ret. lia.
Qed.

(** [C7] When the detail page of a relevant, not yet extracted article
    yields no extraction (the call is rejected, or resolves to
    [undefined] because the API call or the decoding of its reply failed),
    the article is still cached: its raw page is written to the [.html]
    file and a record with [victims = null] to the [.json] file; the
    article is kept in the page result and the reducer goes on with the
    next payload. *)
Theorem extraction_failure_cached (E : Env) (w : World) (acc : list Article)
  (s : Summary) (rest : list Summary) (h : jsstring)
  (Hh : s_headline s = Some h) (Hkw : keywords E <> []) (Hk : keyword_match E h = true)
  (Hmiss : cached_victims w (metaFileOf E h (s_date s)) = None)
  (Hfail : victims_of (getPageAndConvertToData E (fetchHTML E (LinkUrl (s_link s)))) = None) :
  let html := fetchHTML E (LinkUrl (s_link s)) in
  let art := mkArticle h (s_date s) (s_link s) (htmlFileOf E h (s_date s)) None in
  exists w',
    processArticle E w acc s = (Ok (acc ++ [art]), w')
    /\ fs w' (metaFileOf E h (s_date s)) = Some (FMeta art)
    /\ fs w' (htmlFileOf E h (s_date s)) = Some (FText html)
    /\ store_fold E w acc (s :: rest) = store_fold E w' (acc ++ [art]) rest.
Proof.
  pose proof (processArticle_hit_or_write E w acc s h Hh Hkw Hk) as Hp.
  rewrite Hmiss in Hp. cbv beta iota zeta in Hp |- *. rewrite Hfail in Hp.
  eexists. split; [exact Hp|]. split; [|split].
  - apply writeFile_same.
  - rewrite writeFile_other by apply html_meta_distinct. apply writeFile_same.
  - simpl. rewrite Hp. reflexivity.
Qed.

Definition sample_summary : Summary :=
  mkSummary (apex ++ js "/a") (Some (js "Boy killed in strike")) (js "January 5, 2024").

Lemma extraction_failure_cached_witness :
  fs (snd (processArticle (test_env [] conv_fail dci_keywords) (initWorld empty_fs) [] sample_summary))
     (metaFileOf (test_env [] conv_fail dci_keywords) (js "Boy killed in strike") (js "January 5, 2024"))
  = Some (FMeta (mkArticle (js "Boy killed in strike") (js "January 5, 2024") (apex ++ js "/a")
                   (htmlFileOf (test_env [] conv_fail dci_keywords) (js "Boy killed in strike")
                      (js "January 5, 2024")) None)).
Proof.
  destruct (extraction_failure_cached (test_env [] conv_fail dci_keywords) (initWorld empty_fs) []
              sample_summary [] (js "Boy killed in strike")
              ltac:(reflexivity) ltac:(discriminate) ltac:(vm_compute; reflexivity)
              ltac:(reflexivity) ltac:(reflexivity)) as [w' [Hp [Hm _]]].
  rewrite Hp. exact Hm.
Defined.

(** [C8] [getArticlesRecursively] started at page [p >= 1] terminates: it
    returns within [stop + 2 - p] invocations and takes the
    page-processing branch at most [stop + 1 - p] times; an invocation
    with the stop flag set or past the page limit writes the final
    aggregate [all.json] and returns the accumulator; an invocation whose
    page content (cached or fetched) is empty returns the accumulator. *)
Theorem pagination_terminates (E : Env) (stop p : nat) (acc : list Article) (w : World)
  (Hp : (1 <= p)%nat) :
  is_ret (run E stop (S (stop + 1 - p)) (Call p acc w)) = true
  /\ (forall n, (pages_entered E stop n (Call p acc w) <= stop + 1 - p)%nat)
  /\ (forall page acc' w', done w' = true \/ (stop < page)%nat ->
        step E stop (Call page acc' w') = Ret (Ok acc') (writeFile w' PAll (FArticles acc')))
  /\ (forall page acc' w', done w' = false -> (page <= stop)%nat ->
        fst (readOrFetchPage E w' page) = [] ->
        step E stop (Call page acc' w') = Ret (Ok acc') (snd (readOrFetchPage E w' page))).
Proof.
  split; [apply run_reaches_ret; lia|].
  split; [intros n; apply pages_entered_bound|].
  split.
  - intros page acc' w' [Hd|Hlt].
    + apply step_when_done. exact Hd.
    + apply step_not_entered. simpl.
      destruct (Nat.leb_spec page stop); [lia|]. apply andb_false_r.
  - intros page acc' w' Hd Hle He. simpl. rewrite Hd.
    apply Nat.leb_le in Hle. rewrite Hle. simpl.
    destruct (readOrFetchPage E w' page) as [html w1]. simpl in He. rewrite He. reflexivity.
Qed.

Lemma pagination_terminates_witness :
  is_ret (run (test_env page_unordered conv_ok dci_keywords) 3 4
            (Call 1 [] (initWorld empty_fs))) = true.
Proof.
  exact (proj1 (pagination_terminates (test_env page_unordered conv_ok dci_keywords) 3 1 []
                  (initWorld empty_fs) ltac:(lia))).
Defined.

(** [C9] (counterexample) Two summaries with the same headline and
    different links: when the first is extracted, the second reuses its
    record; the second is never fetched and the stored record keeps the
    first's link. *)
Lemma same_headline_second_not_written :
  let E := test_env [] conv_ok dci_keywords in
  let s2 := mkSummary (apex ++ js "/b") (Some (js "Boy killed in strike")) (js "January 5, 2024") in
  let w := snd (getAndStoreArticlesFromLinks E (initWorld empty_fs) [sample_summary; s2]) in
  option_map a_link (readMeta (fs w (metaFileOf E (js "Boy killed in strike") (js "January 5, 2024"))))
  = Some (apex ++ js "/a")
  /\ detail_fetches (log w) = 1%nat.
Proof. vm_compute. split; reflexivity. Qed.

(** [C9] (amended) Two summaries with the same headline get the same
    cache key and, with dates in the same year/month directory, the same
    cache files.  Processing the second never fails: if the stored record
    has non-null victims the second reuses them, with no fetch and no
    write (the record keeps the earlier link and raw content); otherwise
    the second's fetched raw content and extraction overwrite both files
    (last write wins). *)
Theorem same_headline_collision (E : Env) (s1 s2 : Summary) (h : jsstring)
  (H1 : s_headline s1 = Some h) (H2 : s_headline s2 = Some h)
  (Hdir : dirOf E (s_date s1) = dirOf E (s_date s2))
  (Hkw : keywords E <> []) (Hk : keyword_match E h = true) :
  metaFileOf E h (s_date s1) = metaFileOf E h (s_date s2)
  /\ htmlFileOf E h (s_date s1) = htmlFileOf E h (s_date s2)
  /\ forall w acc,
     match cached_victims w (metaFileOf E h (s_date s1)) with
     | Some v =>
         processArticle E w acc s2
         = (Ok (acc ++ [mkArticle h (s_date s2) (s_link s2) (htmlFileOf E h (s_date s1)) (Some v)]), w)
     | None =>
         let html := fetchHTML E (LinkUrl (s_link s2)) in
         let art := mkArticle h (s_date s2) (s_link s2) (htmlFileOf E h (s_date s1))
                      (victims_of (getPageAndConvertToData E html)) in
         exists w',
           processArticle E w acc s2 = (Ok (acc ++ [art]), w')
           /\ fs w' (metaFileOf E h (s_date s1)) = Some (FMeta art)
           /\ fs w' (htmlFileOf E h (s_date s1)) = Some (FText html)
     end.
Proof.
  assert (Hm : metaFileOf E h (s_date s1) = metaFileOf E h (s_date s2))
    by (unfold metaFileOf; now rewrite Hdir).
  assert (Hf : htmlFileOf E h (s_date s1) = htmlFileOf E h (s_date s2))
    by (unfold htmlFileOf; now rewrite Hdir).
  split; [exact Hm|split; [exact Hf|]].
  intros w acc.
  pose proof (processArticle_hit_or_write E w acc s2 h H2 Hkw Hk) as Hp.
  rewrite Hm, Hf. destruct (cached_victims w (metaFileOf E h (s_date s2))) as [v|].
  - exact Hp.
  - cbv zeta in Hp |- *. eexists. split; [exact Hp|]. split.
    + apply writeFile_same.
    + rewrite writeFile_other by apply html_meta_distinct. apply writeFile_same.
Qed.

Lemma same_headline_collision_witness :
  metaFileOf (test_env [] conv_ok dci_keywords) (js "Boy killed in strike") (js "January 5, 2024")
  = metaFileOf (test_env [] conv_ok dci_keywords) (js "Boy killed in strike") (js "January 7, 2024").
Proof.
  exact (proj1 (same_headline_collision (test_env [] conv_ok dci_keywords) sample_summary
                  (mkSummary (apex ++ js "/b") (Some (js "Boy killed in strike")) (js "January 7, 2024"))
                  (js "Boy killed in strike") ltac:(reflexivity) ltac:(reflexivity)
                  ltac:(reflexivity) ltac:(discriminate) ltac:(vm_compute; reflexivity))).
Defined.

(** ** Lemmas for resuming a run *)

Definition fs_of (c : Cfg) : path -> option FileC :=
  match c with Call _ _ w => fs w | Ret _ w => fs w end.

(** Every extracted record ([victims] non-null) present in [f] is still in
    [f']. *)
Definition grows (f f' : path -> option FileC) : Prop :=
  forall d hh a v, f (PMeta d hh) = Some (FMeta a) -> a_victims a = Some v ->
  f' (PMeta d hh) = Some (FMeta a).

(** The listing HTML an invocation for page [n] works on. *)
Definition pageHtml (E : Env) (f : path -> option FileC) (n : nat) : jsstring :=
  match readText (f (PSource n)) with Some h => h | None => fetchHTML E (PageUrl n) end.

Lemma grows_refl (f : path -> option FileC) : grows f f.
Proof. intros d hh a v H _. exact H. Qed.

Lemma grows_trans (f g k : path -> option FileC) : grows f g -> grows g k -> grows f k.
Proof. intros H1 H2 d hh a v Ha Hv. exact (H2 d hh a v (H1 d hh a v Ha Hv) Hv). Qed.

Lemma grows_write_other (w : World) (p : path) (c : FileC) :
  (forall d hh, p <> PMeta d hh) -> grows (fs w) (fs (writeFile w p c)).
Proof.
  intros Hp d hh a v H _. rewrite writeFile_other; [exact H|].
  intros Heq. exact (Hp d hh (eq_sym Heq)).
Qed.

Lemma fs_writeFile (w : World) (p q : path) (c : FileC) :
  fs (writeFile w p c) q = if path_eq_dec q p then Some c else fs w q.
Proof. reflexivity. Qed.

Lemma fs_emit (w : World) (e : Event) : fs (emit w e) = fs w.
Proof. reflexivity. Qed.

Ltac split_writes :=
  repeat rewrite fs_writeFile; repeat rewrite fs_emit;
  repeat match goal with
         | |- context [path_eq_dec ?x ?y] => destruct (path_eq_dec x y)
         end.

Lemma processArticle_effects (E : Env) (w : World) (acc : list Article) (s : Summary)
  (r : Res (list Article)) (w' : World) :
  processArticle E w acc s = (r, w') ->
  grows (fs w) (fs w')
  /\ (forall n, fs w' (PSource n) = fs w (PSource n))
  /\ (forall n, fs w' (PPage n) = fs w (PPage n))
  /\ fs w' PAll = fs w PAll.
Proof.
  unfold processArticle. destruct (keywords E) as [|k ks].
  { intros H; inversion H; subst. split; [apply grows_refl|auto]. }
  destruct (s_headline s) as [h|]; [|intros H; inversion H; subst; split; [apply grows_refl|auto]].
  destruct (keyword_match E h); [|intros H; inversion H; subst; split; [apply grows_refl|auto]].
  destruct (readMeta (fs w (metaFileOf E h (s_date s)))) as [[? ? ? ? [v|]]|] eqn:Hr;
    intros H; inversion H; subst; clear H;
    [split; [apply grows_refl|auto] | |];
    (split; [|split; [|split]];
     [ intros d hh a v Ha Hv; split_writes;
       [ rewrite <- e in Hr; rewrite Ha in Hr; simpl in Hr; inversion Hr; subst;
         simpl in Hv; discriminate
       | discriminate
       | exact Ha ]
     | intros n; split_writes; try discriminate; reflexivity
     | intros n; split_writes; try discriminate; reflexivity
     | split_writes; try discriminate; reflexivity ]).
Qed.

Lemma store_fold_effects (E : Env) (w : World) (acc : list Article) (ls : list Summary)
  (r : Res (list Article)) (w' : World) :
  store_fold E w acc ls = (r, w') ->
  grows (fs w) (fs w')
  /\ (forall n, fs w' (PSource n) = fs w (PSource n))
  /\ fs w' PAll = fs w PAll.
Proof.
  revert w acc. induction ls as [|s rest IH]; intros w acc H.
  - simpl in H. inversion H; subst. split; [apply grows_refl|auto].
  - simpl in H. destruct (processArticle E w acc s) as [[acc'|] w1] eqn:Hp;
      destruct (processArticle_effects E w acc s _ _ Hp) as [Hg [Hs [_ Ha]]].
    + destruct (IH w1 acc' H) as [Hg' [Hs' Ha']].
      split; [exact (grows_trans _ _ _ Hg Hg')|split].
      * intros n. rewrite Hs'. apply Hs.
      * rewrite Ha'. exact Ha.
    + inversion H; subst. auto.
Qed.

Lemma readOrFetchPage_spec (E : Env) (w : World) (page : nat) :
  fst (readOrFetchPage E w page) = pageHtml E (fs w) page
  /\ fs (snd (readOrFetchPage E w page)) = fs w
  /\ detail_fetches (log (snd (readOrFetchPage E w page))) = detail_fetches (log w).
Proof.
  unfold readOrFetchPage, pageHtml. destruct (readText (fs w (PSource page))); auto.
Qed.

Lemma step_effects (E : Env) (stop : nat) (c : Cfg) :
  grows (fs_of c) (fs_of (step E stop c))
  /\ forall n, pageHtml E (fs_of (step E stop c)) n = pageHtml E (fs_of c) n.
Proof.
  destruct c as [page acc w|r w]; [|split; [apply grows_refl|reflexivity]].
  unfold step.
  destruct (negb (done w) && Nat.leb page stop).
  2:{ cbn [fs_of]. split.
      - apply grows_write_other. discriminate.
      - intros n. unfold pageHtml. rewrite fs_writeFile.
        destruct (path_eq_dec (PSource n) PAll); [discriminate|reflexivity]. }
  destruct (readOrFetchPage_spec E w page) as [Hh [Hf _]].
  destruct (readOrFetchPage E w page) as [html w1]. simpl in Hh, Hf.
  destruct html as [|c t]; [cbn [fs_of]; rewrite Hf; split; [apply grows_refl|reflexivity]|].
  destruct (getDciLinksFromLanding E (done w1) (c :: t)) as [[ls|] d].
  2:{ cbn [fs_of set_done fs]. rewrite Hf. split; [apply grows_refl|reflexivity]. }
  unfold getAndStoreArticlesFromLinks.
  destruct (store_fold E (set_done w1 d) [] ls) as [[arts|] w3] eqn:Hs;
    destruct (store_fold_effects E _ _ _ _ _ Hs) as [Hg [Hsrc _]];
    simpl in Hg, Hsrc; rewrite Hf in Hg, Hsrc.
  - cbn [fs_of]. split.
    + eapply grows_trans; [exact Hg|].
      eapply grows_trans; [apply (grows_write_other w3 (PPage page)); discriminate|].
      apply grows_write_other. discriminate.
    + intros n. unfold pageHtml at 1. rewrite !fs_writeFile.
      destruct (path_eq_dec (PSource n) (PSource page)) as [Heq|Hne].
      * inversion Heq; subst. simpl. rewrite <- Hh. reflexivity.
      * destruct (path_eq_dec (PSource n) (PPage page)); [discriminate|].
        unfold pageHtml. rewrite Hsrc. reflexivity.
  - cbn [fs_of]. split; [exact Hg|]. intros n. unfold pageHtml. rewrite Hsrc. reflexivity.
Qed.

Lemma run_effects (E : Env) (stop : nat) :
  forall n c, grows (fs_of c) (fs_of (run E stop n c))
  /\ forall m, pageHtml E (fs_of (run E stop n c)) m = pageHtml E (fs_of c) m.
Proof.
  induction n as [|n IH]; intros c; [split; [apply grows_refl|reflexivity]|].
  simpl. destruct (step_effects E stop c) as [Hg Hp]. destruct (IH (step E stop c)) as [Hg' Hp'].
  split; [exact (grows_trans _ _ _ Hg Hg')|]. intros m. rewrite Hp'. apply Hp.
Qed.

Section Resume.
Variable E : Env.
Variable stop : nat.
(** No extraction of a detail page comes back null. *)
Hypothesis Hext :
  forall link, victims_of (getPageAndConvertToData E (fetchHTML E (LinkUrl link))) <> None.

Definition meta_agree (f F : path -> option FileC) : Prop :=
  forall d hh, f (PMeta d hh) = F (PMeta d hh).

Lemma process_replay (F : path -> option FileC) (w1 w2 : World) (acc : list Article)
  (s : Summary) (r1 : Res (list Article)) (w1a : World) :
  processArticle E w1 acc s = (r1, w1a) ->
  meta_agree (fs w2) F -> grows (fs w1a) F ->
  processArticle E w2 acc s = (r1, w2).
Proof.
  intros H1 Hm Hg. unfold processArticle in *.
  destruct (keywords E) as [|k ks]; [now inversion H1|].
  destruct (s_headline s) as [h|]; [|now inversion H1].
  destruct (keyword_match E h); [|now inversion H1].
  assert (HM : fs w2 (metaFileOf E h (s_date s)) = F (metaFileOf E h (s_date s)))
    by apply Hm.
  destruct (readMeta (fs w1 (metaFileOf E h (s_date s)))) as [[a1 a2 a3 a4 [v|]]|] eqn:Hr.
  - injection H1 as Hr1 Hw1. subst r1 w1a.
    unfold readMeta in Hr. destruct (fs w1 (metaFileOf E h (s_date s))) as [[| a |]|] eqn:Hf;
      try discriminate.
    inversion Hr; subst.
    unfold metaFileOf in Hf, HM. rewrite (Hg _ _ _ v Hf eq_refl) in HM.
    unfold metaFileOf. rewrite HM. reflexivity.
  - destruct (victims_of (getPageAndConvertToData E (fetchHTML E (LinkUrl (s_link s)))))
      as [v|] eqn:Hv; [|exfalso; exact (Hext _ Hv)].
    injection H1 as Hr1 Hw1. subst r1.
    assert (Hw : fs w1a (metaFileOf E h (s_date s))
                 = Some (FMeta (mkArticle h (s_date s) (s_link s) (htmlFileOf E h (s_date s)) (Some v))))
      by (rewrite <- Hw1; apply writeFile_same).
    unfold metaFileOf in Hw, HM. rewrite (Hg _ _ _ v Hw eq_refl) in HM.
    unfold metaFileOf. rewrite HM. reflexivity.
  - destruct (victims_of (getPageAndConvertToData E (fetchHTML E (LinkUrl (s_link s)))))
      as [v|] eqn:Hv; [|exfalso; exact (Hext _ Hv)].
    injection H1 as Hr1 Hw1. subst r1.
    assert (Hw : fs w1a (metaFileOf E h (s_date s))
                 = Some (FMeta (mkArticle h (s_date s) (s_link s) (htmlFileOf E h (s_date s)) (Some v))))
      by (rewrite <- Hw1; apply writeFile_same).
    unfold metaFileOf in Hw, HM. rewrite (Hg _ _ _ v Hw eq_refl) in HM.
    unfold metaFileOf. rewrite HM. reflexivity.
Qed.

Lemma store_replay (F : path -> option FileC) :
  forall ls w1 w2 acc,
  meta_agree (fs w2) F -> grows (fs (snd (store_fold E w1 acc ls))) F ->
  store_fold E w2 acc ls = (fst (store_fold E w1 acc ls), w2).
Proof.
  induction ls as [|s rest IH]; intros w1 w2 acc Hm Hg; [reflexivity|].
  simpl in Hg |- *.
  destruct (processArticle E w1 acc s) as [r1 w1a] eqn:H1.
  assert (Hga : grows (fs w1a) F).
  { destruct r1 as [acc'|]; [|exact Hg].
    destruct (store_fold E w1a acc' rest) as [r w'] eqn:Hs.
    destruct (store_fold_effects E _ _ _ _ _ Hs) as [Hg' _].
    exact (grows_trans _ _ _ Hg' Hg). }
  rewrite (process_replay F w1 w2 acc s r1 w1a H1 Hm Hga).
  destruct r1 as [acc'|]; [|reflexivity].
  apply IH; assumption.
Qed.

Lemma log_writeFile (w : World) (p : path) (c : FileC) : log (writeFile w p c) = log w.
Proof. reflexivity. Qed.

Lemma done_writeFile (w : World) (p : path) (c : FileC) : done (writeFile w p c) = done w.
Proof. reflexivity. Qed.

Lemma fs_set_done (w : World) (d : bool) : fs (set_done w d) = fs w.
Proof. reflexivity. Qed.

Lemma log_set_done (w : World) (d : bool) : log (set_done w d) = log w.
Proof. reflexivity. Qed.

(** Run 2 ([c2]) replays run 1 ([c1]) against the files [F] run 1 leaves. *)
Definition replaying (F : path -> option FileC) (c1 c2 : Cfg) : Prop :=
  match c1, c2 with
  | Call p1 a1 w1, Call p2 a2 w2 =>
      p1 = p2 /\ a1 = a2 /\ done w1 = done w2
      /\ (forall n, pageHtml E (fs w2) n = pageHtml E (fs w1) n)
      /\ meta_agree (fs w2) F /\ detail_fetches (log w2) = O /\ fs w2 PAll = F PAll
  | Ret r1 w1, Ret r2 w2 =>
      r1 = r2 /\ detail_fetches (log w2) = O /\ fs w2 PAll = fs w1 PAll
  | _, _ => False
  end.

Lemma step_replay (F : path -> option FileC) (p : nat) (a : list Article) (w1 w2 : World) :
  replaying F (Call p a w1) (Call p a w2) ->
  grows (fs_of (step E stop (Call p a w1))) F ->
  (is_ret (step E stop (Call p a w1)) = true -> fs_of (step E stop (Call p a w1)) = F) ->
  replaying F (step E stop (Call p a w1)) (step E stop (Call p a w2)).
Proof.
  intros [_ [_ [Hd [Hp [Hm [Hdet Hall]]]]]].
  unfold step. rewrite <- Hd.
  destruct (negb (done w1) && Nat.leb p stop).
  2:{ intros _ _. unfold replaying. cbv beta iota.
      rewrite log_writeFile, !writeFile_same. auto. }
  destruct (readOrFetchPage_spec E w1 p) as [Hh1 [Hf1 Hl1]].
  destruct (readOrFetchPage_spec E w2 p) as [Hh2 [Hf2 Hl2]].
  pose proof (readOrFetchPage_done E w1 p) as Hd1.
  pose proof (readOrFetchPage_done E w2 p) as Hd2.
  destruct (readOrFetchPage E w1 p) as [h1 w1'].
  destruct (readOrFetchPage E w2 p) as [h2 w2'].
  cbn [fst snd] in Hh1, Hf1, Hl1, Hd1, Hh2, Hf2, Hl2, Hd2.
  assert (Hh : h2 = h1) by (rewrite Hh1, Hh2; apply Hp). rewrite Hh. clear Hh Hh2.
  cbv beta iota.
  destruct h1 as [|c t].
  { intros _ Hfin. specialize (Hfin eq_refl). cbn [fs_of] in Hfin.
    unfold replaying. cbv beta iota.
    rewrite Hl2, Hf2, Hall, Hfin. auto. }
  assert (Hdd : done w2' = done w1') by congruence. rewrite Hdd.
  destruct (getDciLinksFromLanding E (done w1') (c :: t)) as [[ls|] d].
  2:{ intros _ Hfin. specialize (Hfin eq_refl). cbn [fs_of] in Hfin.
      unfold replaying. cbv beta iota.
      rewrite log_set_done, Hl2, Hfin, fs_set_done, Hf2, Hall. auto. }
  unfold getAndStoreArticlesFromLinks.
  destruct (store_fold E (set_done w1' d) [] ls) as [r1 w3] eqn:Hs1.
  pose proof (store_fold_done E _ _ _ _ _ Hs1) as Hd3.
  destruct (store_fold_effects E _ _ _ _ _ Hs1) as [_ [Hsrc3 _]].
  assert (Hm2 : meta_agree (fs (set_done w2' d)) F).
  { intros dd hh. rewrite fs_set_done, Hf2. apply Hm. }
  destruct r1 as [arts|].
  - intros Hg _.
    assert (Hg3 : grows (fs w3) F).
    { eapply grows_trans; [|exact Hg]. cbn [fs_of].
      eapply grows_trans; [apply (grows_write_other w3 (PPage p)); discriminate|].
      apply grows_write_other. discriminate. }
    pose proof (store_replay F ls (set_done w1' d) (set_done w2' d) [] Hm2) as Hr.
    rewrite Hs1 in Hr. specialize (Hr Hg3). rewrite Hr.
    unfold replaying. cbv beta iota.
    split; [reflexivity|split; [reflexivity|split]].
    + rewrite !done_writeFile, Hd3. reflexivity.
    + split; [|split; [|split]].
      * intros n. unfold pageHtml. rewrite !fs_writeFile.
        destruct (path_eq_dec (PSource n) (PSource p)); [reflexivity|].
        destruct (path_eq_dec (PSource n) (PPage p)); [discriminate|].
        rewrite fs_set_done, Hf2, Hsrc3, fs_set_done, Hf1. apply Hp.
      * intros dd hh. rewrite !fs_writeFile.
        destruct (path_eq_dec (PMeta dd hh) (PSource p)); [discriminate|].
        destruct (path_eq_dec (PMeta dd hh) (PPage p)); [discriminate|].
        apply Hm2.
      * rewrite !log_writeFile, log_set_done, Hl2. exact Hdet.
      * rewrite !fs_writeFile.
        destruct (path_eq_dec PAll (PSource p)); [discriminate|].
        destruct (path_eq_dec PAll (PPage p)); [discriminate|].
        rewrite fs_set_done, Hf2. exact Hall.
  - intros Hg Hfin. specialize (Hfin eq_refl). cbn [fs_of] in Hfin, Hg.
    pose proof (store_replay F ls (set_done w1' d) (set_done w2' d) [] Hm2) as Hr.
    rewrite Hs1 in Hr. specialize (Hr Hg). rewrite Hr. cbn [fst].
    unfold replaying. cbv beta iota.
    rewrite log_set_done, Hl2, fs_set_done, Hf2, Hfin, Hall. auto.
Qed.

Lemma run_replay :
  forall n c1 c2, replaying (fs_of (run E stop n c1)) c1 c2 ->
  replaying (fs_of (run E stop n c1)) (run E stop n c1) (run E stop n c2).
Proof.
  induction n as [|n IH]; intros c1 c2 Hr; [exact Hr|].
  destruct c1 as [p1 a1 w1|r1 w1]; destruct c2 as [p2 a2 w2|r2 w2];
    try (simpl in Hr; contradiction).
  - destruct Hr as [<- [<- Hr]].
    change (run E stop (S n) ?c) with (run E stop n (step E stop c)) in *.
    apply IH.
    apply step_replay.
    + split; [reflexivity|split; [reflexivity|exact Hr]].
    + exact (proj1 (run_effects E stop n _)).
    + intros Hret. destruct (step E stop (Call p1 a1 w1)) as [? ? ?|r w] eqn:Hs;
        [discriminate|]. rewrite run_ret. reflexivity.
  - rewrite !run_ret. rewrite !run_ret in Hr. exact Hr.
Qed.

End Resume.

(** [C2] (counterexample) When an extraction fails in the first run, a
    second run over the files the first one left fetches those detail
    pages again: here both relevant articles of the page. *)
Lemma resume_refetches_failed_extraction :
  let E := test_env page_unordered conv_fail dci_keywords in
  match pipeline E 1 empty_fs with
  | Ret _ w1 =>
      match pipeline E 1 (fs w1) with
      | Ret _ w2 => detail_fetches (log w2) = 2%nat
      | Call _ _ _ => False
      end
  | Call _ _ _ => False
  end.
Proof. vm_compute. reflexivity. Qed.

(** [C2] (amended) When no extraction of a detail page comes back null, a
    second run over the files the first run left (same listing source)
    performs no detail-page fetch, returns the same result as the first
    run and leaves the same final aggregate [all.json]. *)
Theorem resume_no_refetch (E : Env) (stop : nat) (f0 : path -> option FileC)
  (Hext : forall link,
     victims_of (getPageAndConvertToData E (fetchHTML E (LinkUrl link))) <> None) :
  match pipeline E stop f0 with
  | Ret r1 w1 =>
      match pipeline E stop (fs w1) with
      | Ret r2 w2 => r2 = r1 /\ detail_fetches (log w2) = O /\ fs w2 PAll = fs w1 PAll
      | Call _ _ _ => False
      end
  | Call _ _ _ => False
  end.
Proof.
  unfold pipeline.
  set (c1 := Call 1 [] (initWorld f0)).
  set (F := fs_of (run E stop (S (S stop)) c1)).
  assert (Hret := run_reaches_ret E stop (S stop) 1 [] (initWorld f0) ltac:(lia)).
  fold c1 in Hret.
  assert (Hinit : replaying E F c1 (Call 1 [] (initWorld F))).
  { unfold replaying, c1. cbv beta iota. cbn [fs done log initWorld].
    split; [reflexivity|split; [reflexivity|split; [reflexivity|]]].
    split; [|split; [intros d hh; reflexivity|split; reflexivity]].
    intros n. exact (proj2 (run_effects E stop (S (S stop)) c1) n). }
  pose proof (run_replay E stop Hext (S (S stop)) c1 _ Hinit) as Hr.
  fold F in Hr.
  destruct (run E stop (S (S stop)) c1) as [? ? ?|r1 w1] eqn:H1; [discriminate|].
  subst F. cbn [fs_of] in Hr |- *.
  destruct (run E stop (S (S stop)) (Call 1 [] (initWorld (fs w1)))) as [? ? ?|r2 w2];
    [contradiction|].
  destruct Hr as [Hr [Hd Ha]]. auto.
Qed.

Lemma resume_no_refetch_witness :
  let E := test_env page_unordered conv_ok dci_keywords in
  match pipeline E 1 empty_fs with
  | Ret r1 w1 =>
      match pipeline E 1 (fs w1) with
      | Ret r2 w2 => r2 = r1 /\ detail_fetches (log w2) = O /\ fs w2 PAll = fs w1 PAll
      | Call _ _ _ => False
      end
  | Call _ _ _ => False
  end.
Proof.
  exact (resume_no_refetch (test_env page_unordered conv_ok dci_keywords) 1 empty_fs
           (fun link => ltac:(discriminate))).
Defined.


(** ** Lemmas on whitespace and trimming *)

Lemma drop_ws_hd (s : jsstring) (c : Z) : hd_error (drop_ws s) = Some c -> is_ws c = false.
Proof.
  induction s as [|x t IH]; simpl; [discriminate|].
  destruct (is_ws x) eqn:Hx; [exact IH|]. simpl. intros H; injection H as <-; exact Hx.
Qed.

Lemma drop_ws_suffix (s : jsstring) : exists p, s = p ++ drop_ws s.
Proof.
  induction s as [|x t [p Hp]]; [exists []; reflexivity|]. simpl.
  destruct (is_ws x); [exists (x :: p); simpl; rewrite <- Hp; reflexivity|exists []; reflexivity].
Qed.

Lemma drop_ws_snoc (l : jsstring) (c : Z) :
  is_ws c = false -> exists y, drop_ws (l ++ [c]) = y ++ [c].
Proof.
  intros Hc. induction l as [|x t IH]; simpl.
  - rewrite Hc. exists []. reflexivity.
  - destruct (is_ws x); [exact IH|]. exists (x :: t). reflexivity.
Qed.

Lemma drop_ws_id (t : jsstring) :
  (forall c, hd_error t = Some c -> is_ws c = false) -> drop_ws t = t.
Proof.
  destruct t as [|c t]; intros H; [reflexivity|]. simpl. rewrite (H c eq_refl). reflexivity.
Qed.

Lemma trim_edge_ws_free (s : jsstring) : edge_ws_free (trim s).
Proof.
  unfold trim. split.
  - intros c. destruct (drop_ws s) as [|x t] eqn:Hd; [simpl; discriminate|].
    assert (Hx : is_ws x = false) by (apply (drop_ws_hd s); rewrite Hd; reflexivity).
    simpl. destruct (drop_ws_snoc (rev t) x Hx) as [y ->].
    rewrite rev_app_distr. simpl. intros H; injection H as <-; exact Hx.
  - rewrite rev_involutive. apply drop_ws_hd.
Qed.

Lemma trim_id (t : jsstring) : edge_ws_free t -> trim t = t.
Proof.
  intros [H1 H2]. unfold trim. rewrite (drop_ws_id t H1), (drop_ws_id (rev t) H2).
  apply rev_involutive.
Qed.

Lemma Forall_drop_ws (P : Z -> Prop) (s : jsstring) : Forall P s -> Forall P (drop_ws s).
Proof.
  destruct (drop_ws_suffix s) as [p Hp]. intros H. rewrite Hp in H.
  apply Forall_app in H. exact (proj2 H).
Qed.

Lemma Forall_trim (P : Z -> Prop) (s : jsstring) : Forall P s -> Forall P (trim s).
Proof.
  intros H. unfold trim. apply Forall_rev, Forall_drop_ws, Forall_rev, Forall_drop_ws, H.
Qed.

(** ** Lemmas on adjacent whitespace *)

Lemma no_double_ws_adjacent (s : jsstring) : no_double_ws s = true <-> ~ adjacent_ws s.
Proof.
  induction s as [|c t IH].
  - split; [intros _ [l1 [x [y [l2 [H _]]]]]; destruct l1; discriminate|reflexivity].
  - destruct t as [|d t'].
    + split; [intros _ [l1 [x [y [l2 [H _]]]]]|reflexivity].
      destruct l1 as [|z [|z' l1]]; discriminate.
    + change (no_double_ws (c :: d :: t')) with
        (negb (is_ws c && is_ws d) && no_double_ws (d :: t')).
      split.
      * intros H [l1 [x [y [l2 [Heq [Hx Hy]]]]]].
        apply andb_prop in H. destruct H as [Hcd Hr].
        destruct l1 as [|z l1].
        -- injection Heq as -> -> _. rewrite Hx, Hy in Hcd. discriminate.
        -- injection Heq as -> Heq. apply (proj1 IH Hr). exists l1, x, y, l2. auto.
      * intros Hn. apply andb_true_intro. split.
        -- destruct (is_ws c) eqn:Hc, (is_ws d) eqn:Hd; try reflexivity.
           exfalso. apply Hn. exists [], c, d, t'. auto.
        -- apply IH. intros [l1 [x [y [l2 [Heq Hxy]]]]]. apply Hn.
           exists (c :: l1), x, y, l2. rewrite Heq. auto.
Qed.

Lemma adjacent_ws_suffix (l m : jsstring) : ~ adjacent_ws (l ++ m) -> ~ adjacent_ws m.
Proof.
  intros Hn [l1 [c [d [l2 [-> Hcd]]]]]. apply Hn.
  exists (l ++ l1), c, d, l2. rewrite <- app_assoc. auto.
Qed.

Lemma adjacent_ws_prefix (l m : jsstring) : ~ adjacent_ws (l ++ m) -> ~ adjacent_ws l.
Proof.
  intros Hn [l1 [c [d [l2 [-> Hcd]]]]]. apply Hn.
  exists l1, c, d, (l2 ++ m). rewrite <- app_assoc. auto.
Qed.

Lemma adjacent_ws_rev (l : jsstring) : ~ adjacent_ws l -> ~ adjacent_ws (rev l).
Proof.
  intros Hn [l1 [c [d [l2 [Heq [Hc Hd]]]]]]. apply Hn.
  exists (rev l2), d, c, (rev l1). split; [|auto].
  rewrite <- (rev_involutive l), Heq. rewrite rev_app_distr. simpl.
  rewrite <- !app_assoc. reflexivity.
Qed.

Lemma adjacent_ws_drop (s : jsstring) : ~ adjacent_ws s -> ~ adjacent_ws (drop_ws s).
Proof.
  destruct (drop_ws_suffix s) as [p Hp]. intros H. rewrite Hp in H.
  exact (adjacent_ws_suffix _ _ H).
Qed.

Lemma adjacent_ws_trim (s : jsstring) : ~ adjacent_ws s -> ~ adjacent_ws (trim s).
Proof.
  intros H. unfold trim.
  apply adjacent_ws_rev, adjacent_ws_drop, adjacent_ws_rev, adjacent_ws_drop, H.
Qed.

Lemma no_double_ws_cons_non_ws (c : Z) (r : jsstring) :
  is_ws c = false -> no_double_ws (c :: r) = no_double_ws r.
Proof. intros Hc. destruct r as [|d r]; [reflexivity|]. simpl. rewrite Hc. reflexivity. Qed.

Lemma no_double_ws_short (x : jsstring) : (List.length x <= 1)%nat -> no_double_ws x = true.
Proof. destruct x as [|a [|b x]]; simpl; intros; [reflexivity|reflexivity|lia]. Qed.

Lemma flush_run_short (r p : jsstring) :
  (List.length r <= 1)%nat -> (List.length (flush_run r p) <= 1)%nat.
Proof. destruct p as [|a [|b p]]; simpl; lia. Qed.

Lemma no_double_ws_around (x r : jsstring) (c : Z) :
  (List.length x <= 1)%nat -> is_ws c = false -> no_double_ws r = true ->
  no_double_ws (x ++ c :: r) = true.
Proof.
  intros Hx Hc Hr. destruct x as [|a [|b x]]; simpl in Hx; [| |lia].
  - simpl app. rewrite no_double_ws_cons_non_ws by exact Hc. exact Hr.
  - change (negb (is_ws a && is_ws c) && no_double_ws (c :: r) = true).
    rewrite Hc, andb_false_r, no_double_ws_cons_non_ws by exact Hc. exact Hr.
Qed.

Lemma replace_ws_runs_no_double (r : jsstring) (Hr : (List.length r <= 1)%nat) :
  forall s p, no_double_ws (replace_ws_runs r p s) = true.
Proof.
  induction s as [|c t IH]; intros p; simpl.
  - apply no_double_ws_short, flush_run_short, Hr.
  - destruct (is_ws c) eqn:Hc; [apply IH|].
    apply no_double_ws_around; [apply flush_run_short, Hr|exact Hc|apply IH].
Qed.

Lemma no_double_ws_suffix (l m : jsstring) : no_double_ws (l ++ m) = true -> no_double_ws m = true.
Proof.
  rewrite !no_double_ws_adjacent. apply adjacent_ws_suffix.
Qed.

Lemma replace_ws_runs_id (r : jsstring) :
  forall t p, no_double_ws (p ++ t) = true ->
  (p = [] \/ exists x, p = [x] /\ is_ws x = true) ->
  replace_ws_runs r p t = p ++ t.
Proof.
  induction t as [|c t IH]; intros p Hnd Hp; simpl.
  - destruct Hp as [->|[x [-> _]]]; reflexivity.
  - destruct (is_ws c) eqn:Hc.
    + destruct Hp as [->|[x [-> Hx]]].
      * apply (IH [c]); [exact Hnd|right; exists c; auto].
      * simpl in Hnd. rewrite Hx, Hc in Hnd. discriminate.
    + assert (Hf : flush_run r p = p) by (destruct Hp as [->|[x [-> _]]]; reflexivity).
      rewrite Hf, (IH []); [reflexivity| |left; reflexivity].
      apply (no_double_ws_suffix (p ++ [c])). rewrite <- app_assoc. exact Hnd.
Qed.

(** ** Lemmas on the date regular expression *)

Lemma exec_first_line_split (X m : jsstring) :
  exec_first_line X = Some m ->
  exists pre suf k, X = pre ++ suf /\ last_dash_on_line suf = Some k /\ m = firstn k suf.
Proof.
  induction X as [|c t IH]; rewrite exec_first_line_eq.
  - discriminate.
  - destruct (last_dash_on_line (c :: t)) as [k|] eqn:Hk.
    + intros H; injection H as <-. exists [], (c :: t), k. auto.
    + intros H. destruct (IH H) as [pre [suf [k [-> Hs]]]].
      exists (c :: pre), suf, k. auto.
Qed.

Lemma last_dash_one_line (suf : jsstring) (k : nat) :
  last_dash_on_line suf = Some k -> Forall (fun c => is_line_terminator c = false) (firstn k suf).
Proof.
  revert k. induction suf as [|c t IH]; intros k; simpl; [discriminate|].
  destruct (is_line_terminator c) eqn:Hc; [discriminate|].
  destruct (last_dash_on_line t) as [k'|] eqn:Hk.
  - intros H; injection H as <-. simpl. constructor; [exact Hc|apply IH; reflexivity].
  - destruct (c =? 45); [|discriminate]. intros H; injection H as <-. constructor.
Qed.

Lemma Forall_firstn_Z (P : Z -> Prop) (k : nat) (s : jsstring) : Forall P s -> Forall P (firstn k s).
Proof.
  intros H. rewrite <- (firstn_skipn k s) in H. apply Forall_app in H. exact (proj1 H).
Qed.

Lemma exec_first_line_Forall (P : Z -> Prop) (X m : jsstring) :
  Forall P X -> exec_first_line X = Some m -> Forall P m.
Proof.
  intros HX Hm. destruct (exec_first_line_split X m Hm) as [pre [suf [k [-> [_ ->]]]]].
  apply Forall_app in HX. apply Forall_firstn_Z, (proj2 HX).
Qed.

Lemma exec_first_line_one_line (X m : jsstring) :
  exec_first_line X = Some m -> Forall (fun c => is_line_terminator c = false) m.
Proof.
  intros Hm. destruct (exec_first_line_split X m Hm) as [pre [suf [k [_ [Hk ->]]]]].
  exact (last_dash_one_line suf k Hk).
Qed.

Lemma exec_first_line_adjacent (X m : jsstring) :
  ~ adjacent_ws X -> exec_first_line X = Some m -> ~ adjacent_ws m.
Proof.
  intros HX Hm. destruct (exec_first_line_split X m Hm) as [pre [suf [k [-> [_ ->]]]]].
  apply adjacent_ws_suffix in HX. rewrite <- (firstn_skipn k suf) in HX.
  exact (adjacent_ws_prefix _ _ HX).
Qed.

Lemma Forall_flush_run (P : Z -> Prop) (r p : jsstring) :
  Forall P r -> Forall P p -> Forall P (flush_run r p).
Proof. intros Hr Hp. destruct p as [|a [|b p]]; simpl; auto. Qed.

Lemma replace_ws_runs_Forall (P : Z -> Prop) (r : jsstring) (Hr : Forall P r) :
  forall s p, Forall P s -> Forall P p -> Forall P (replace_ws_runs r p s).
Proof.
  induction s as [|c t IH]; intros p Hs Hp; simpl; [apply Forall_flush_run; auto|].
  inversion Hs as [|? ? Hc Ht]; subst.
  destruct (is_ws c).
  - apply IH; [exact Ht|apply Forall_app; auto].
  - apply Forall_app. split; [apply Forall_flush_run; auto|constructor; [exact Hc|apply IH; auto]].
Qed.

Lemma last_dash_without_dash (s : jsstring) : Forall (fun c => c <> 45) s -> last_dash_on_line s = None.
Proof.
  induction s as [|c t IH]; intros H; [reflexivity|]. inversion H as [|? ? Hc Ht]; subst.
  simpl. destruct (is_line_terminator c); [reflexivity|]. rewrite (IH Ht).
  destruct (Z.eqb_spec c 45); [contradiction|reflexivity].
Qed.

Lemma exec_first_line_without_dash (s : jsstring) :
  Forall (fun c => c <> 45) s -> exec_first_line s = None.
Proof.
  induction s as [|c t IH]; intros H; [reflexivity|]. rewrite exec_first_line_eq.
  rewrite (last_dash_without_dash _ H). inversion H; subst. apply IH; assumption.
Qed.

Lemma replace_ws_runs_or_comma_no_comma :
  forall s p, Forall (fun c => c <> 44) p -> Forall (fun c => c <> 44) (replace_ws_runs_or_comma p s).
Proof.
  induction s as [|c t IH]; intros p Hp; simpl; [apply Forall_flush_run; auto|].
  destruct (is_ws c) eqn:Hc.
  - apply IH. apply Forall_app. split; [exact Hp|]. constructor; [|constructor].
    intros ->. discriminate.
  - apply Forall_app. split; [apply Forall_flush_run; auto|].
    apply Forall_app. split; [|apply IH; constructor].
    destruct (Z.eqb_spec c 44); [constructor|constructor; [exact n|constructor]].
Qed.

Lemma edge_ws_free_nil : edge_ws_free [].
Proof. split; intros c H; discriminate. Qed.

Lemma adjacent_ws_nil : ~ adjacent_ws [].
Proof. apply no_double_ws_adjacent. reflexivity. Qed.

(** * Further properties of the code *)

(** [clean] (the text cleanup of [htmlToText]) returns a string with no
    whitespace at either end and no two adjacent whitespace code units. *)
Theorem clean_shape (s : jsstring) : edge_ws_free (clean s) /\ ~ adjacent_ws (clean s).
Proof.
  unfold clean. split; [apply trim_edge_ws_free|].
  apply adjacent_ws_trim, no_double_ws_adjacent, replace_ws_runs_no_double. simpl. lia.
Qed.

(** Cleaning a cleaned text changes nothing. *)
Theorem clean_idempotent (s : jsstring) : clean (clean s) = clean s.
Proof.
  destruct (clean_shape s) as [He Ha].
  unfold clean at 1. rewrite (replace_ws_runs_id [32] (clean s) []).
  - apply trim_id, He.
  - apply no_double_ws_adjacent, Ha.
  - left. reflexivity.
Qed.

(** The date that [getDate] extracts lies on one line, has no whitespace
    at either end and no two adjacent whitespace code units. *)
Theorem getDate_shape (s : jsstring) :
  Forall (fun c => is_line_terminator c = false) (getDate s)
  /\ edge_ws_free (getDate s) /\ ~ adjacent_ws (getDate s).
Proof.
  unfold getDate. destruct (exec_first_line (replace_ws_runs [] [] s)) as [m|] eqn:Hm.
  - split; [apply Forall_trim, (exec_first_line_one_line _ _ Hm)|].
    split; [apply trim_edge_ws_free|].
    apply adjacent_ws_trim. apply (exec_first_line_adjacent _ _ (proj1 (no_double_ws_adjacent _)
      (replace_ws_runs_no_double [] ltac:(simpl; lia) s [])) Hm).
  - split; [constructor|split; [apply edge_ws_free_nil|apply adjacent_ws_nil]].
Qed.

(** A date field without any ['-'] gives the date [''].  As [new Date('')]
    is invalid, the listing reducer skips such an entry and sets the stop
    flag. *)
Theorem getDate_without_dash (E : Env) (s : jsstring) (acc : list Summary) (d : bool)
  (it : Featured) (rest : list Featured)
  (Hs : ~ In 45 s) (Hf : f_date it = Some s) (Hnan : dateParse E [] = None) :
  getDate s = [] /\ landing_fold E acc d (it :: rest) = landing_fold E acc true rest.
Proof.
  assert (Hg : getDate s = []).
  { unfold getDate. rewrite exec_first_line_without_dash; [reflexivity|].
    apply replace_ws_runs_Forall; [constructor| |constructor].
    apply Forall_forall. intros x Hx ->. exact (Hs Hx). }
  split; [exact Hg|]. simpl. rewrite Hf. unfold relevant. rewrite Hg, Hnan. reflexivity.
Qed.

Lemma getDate_without_dash_witness :
  ~ In 45 (js "Date unknown") /\
  getDate (js "Date unknown") = []
  /\ landing_fold (test_env [] conv_ok dci_keywords) [] false
       [mkFeatured None None (Some (js "Date unknown"))]
     = landing_fold (test_env [] conv_ok dci_keywords) [] true [].
Proof.
  split; [simpl; intuition discriminate|].
  apply (getDate_without_dash (test_env [] conv_ok dci_keywords) (js "Date unknown") [] false
           (mkFeatured None None (Some (js "Date unknown"))) []);
    [simpl; intuition discriminate|reflexivity|reflexivity].
Defined.

(** The [getDate] of src/sites/dci-palestine.org.js and
    src/unnamed/part_001 (which also deletes commas) returns a date
    without any comma, on one line, with no whitespace at either end. *)
Theorem getDate_dci_shape (s : jsstring) :
  ~ In 44 (getDate_dci s)
  /\ Forall (fun c => is_line_terminator c = false) (getDate_dci s)
  /\ edge_ws_free (getDate_dci s).
Proof.
  unfold getDate_dci. destruct (exec_first_line (replace_ws_runs_or_comma [] s)) as [m|] eqn:Hm.
  - split; [|split; [apply Forall_trim, (exec_first_line_one_line _ _ Hm)|apply trim_edge_ws_free]].
    intros Hin. assert (H : Forall (fun c => c <> 44) (trim m)).
    { apply Forall_trim, (exec_first_line_Forall _ _ _ (replace_ws_runs_or_comma_no_comma s [] (Forall_nil _)) Hm). }
    rewrite Forall_forall in H. exact (H 44 Hin eq_refl).
  - split; [simpl; tauto|split; [constructor|apply edge_ws_free_nil]].
Qed.

(** ** Lemmas on the listing reducer *)


Lemma landing_fold_dateless (E : Env) (it : Featured) (Hf : f_date it = None) :
  forall items acc d, In it items -> fst (landing_fold E acc d items) = TypeError.
Proof.
  induction items as [|it' rest IH]; intros acc d Hin; [destruct Hin|].
  destruct Hin as [->|Hin]; simpl.
  - rewrite Hf. reflexivity.
  - destruct (f_date it'); [|reflexivity]. destruct (relevant E j); apply IH, Hin.
Qed.



(** An entry of the listing page without a [.date] element makes the
    whole page fail: the invocation of [getArticlesRecursively] rejects
    with a [TypeError], fetches no detail page and writes no file (no
    [page_N.json], no cached page, no [all.json]). *)
Theorem dateless_entry_aborts_page (E : Env) (stop page : nat) (acc : list Article)
  (w : World) (it : Featured)
  (Hd : done w = false) (Hp : (page <= stop)%nat)
  (Hne : fst (readOrFetchPage E w page) <> [])
  (Hin : In it (featuredOf E (fst (readOrFetchPage E w page))))
  (Hf : f_date it = None) :
  exists w', step E stop (Call page acc w) = Ret TypeError w'
             /\ fs w' = fs w /\ detail_fetches (log w') = detail_fetches (log w).
Proof.
  destruct (readOrFetchPage_spec E w page) as [_ [Hfs Hlog]].
  unfold step. rewrite Hd. apply Nat.leb_le in Hp. rewrite Hp. cbn [negb andb].
  destruct (readOrFetchPage E w page) as [html w1]. simpl in Hne, Hin, Hfs, Hlog.
  destruct html as [|h t]; [contradiction|].
  unfold getDciLinksFromLanding.
  pose proof (landing_fold_dateless E it Hf _ [] (done w1) Hin) as Ht.
  destruct (landing_fold E [] (done w1) (featuredOf E (h :: t))) as [res d]. simpl in Ht. subst res.
  exists (set_done w1 d). split; [reflexivity|]. split; assumption.
Qed.

Lemma dateless_entry_aborts_page_witness :
  exists w', step (test_env [mkFeatured None (Some (js "Boy killed")) None] conv_ok dci_keywords) 1
               (Call 1 [] (initWorld empty_fs)) = Ret TypeError w'
             /\ fs w' = empty_fs /\ detail_fetches (log w') = O.
Proof.
  apply (dateless_entry_aborts_page (test_env [mkFeatured None (Some (js "Boy killed")) None] conv_ok dci_keywords)
           1 1 [] (initWorld empty_fs) (mkFeatured None (Some (js "Boy killed")) None));
    [reflexivity|lia|vm_compute; discriminate|simpl; left; reflexivity|reflexivity].
Defined.

(** ** Lemmas on the per-page files *)

Lemma store_fold_pages (E : Env) :
  forall ls w acc r w', store_fold E w acc ls = (r, w') ->
  forall n, fs w' (PPage n) = fs w (PPage n).
Proof.
  induction ls as [|s rest IH]; intros w acc r w' H n; simpl in H.
  - injection H as _ <-. reflexivity.
  - destruct (processArticle E w acc s) as [[acc'|] w1] eqn:Hp.
    + destruct (processArticle_effects E w acc s _ _ Hp) as [_ [_ [Hpg _]]].
      rewrite (IH _ _ _ _ H n). apply Hpg.
    + injection H as _ <-. exact (proj1 (proj2 (proj2 (processArticle_effects E w acc s _ _ Hp))) n).
Qed.

Lemma flat_map_ext_in {A B} (f g : A -> list B) (l : list A) :
  (forall x, In x l -> f x = g x) -> flat_map f l = flat_map g l.
Proof.
  induction l as [|x t IH]; intros H; [reflexivity|]. simpl.
  rewrite (H x (or_introl eq_refl)), IH; [reflexivity|]. intros y Hy. apply H. right. exact Hy.
Qed.

Definition aggregate_inv (stop : nat) (f0 : path -> option FileC) (c : Cfg) : Prop :=
  match c with
  | Call p acc w =>
      (1 <= p <= S stop)%nat /\ acc = flat_map (page_file (fs w)) (seq 1 (p - 1))
      /\ fs w PAll = f0 PAll
  | Ret (Ok r) w =>
      exists k, (k <= stop)%nat /\ r = flat_map (page_file (fs w)) (seq 1 k)
      /\ (fs w PAll = Some (FArticles r) \/ fs w PAll = f0 PAll)
  | Ret TypeError _ => True
  end.

Lemma page_file_write_other (w : World) (p : path) (c : FileC) (i : nat) :
  p <> PPage i -> page_file (fs (writeFile w p c)) i = page_file (fs w) i.
Proof. intros H. unfold page_file. rewrite writeFile_other; [reflexivity|congruence]. Qed.

Lemma step_aggregate_inv (E : Env) (stop : nat) (f0 : path -> option FileC) (c : Cfg) :
  aggregate_inv stop f0 c -> aggregate_inv stop f0 (step E stop c).
Proof.
  destruct c as [p acc w|r w]; [|intros H; exact H].
  intros [Hp [Hacc Hall]]. unfold step.
  destruct (negb (done w) && Nat.leb p stop) eqn:Hc.
  - apply andb_prop in Hc as [_ Hle]. apply Nat.leb_le in Hle.
    destruct (readOrFetchPage_spec E w p) as [_ [Hfs _]].
    destruct (readOrFetchPage E w p) as [html w1]. simpl in Hfs.
    destruct html as [|h t].
    + exists (p - 1)%nat. split; [lia|]. rewrite Hfs. split; [exact Hacc|right; exact Hall].
    + destruct (getDciLinksFromLanding E (done w1) (h :: t)) as [[links|] d]; [|exact I].
      destruct (getAndStoreArticlesFromLinks E (set_done w1 d) links) as [[arts|] w3] eqn:Hs;
        [|exact I].
      pose proof (store_fold_pages E _ _ _ _ _ Hs) as Hpg.
      pose proof (proj2 (proj2 (store_fold_effects E _ _ _ _ _ Hs))) as Hall3.
      cbn [aggregate_inv]. split; [lia|]. split.
      * assert (Hseq : seq 1 (S p - 1) = seq 1 (p - 1) ++ [p]).
        { destruct p as [|q]; [lia|]. simpl (S (S q) - 1)%nat. simpl (S q - 1)%nat.
          rewrite Nat.sub_0_r, seq_S. reflexivity. }
        rewrite Hseq, flat_map_app, Hacc. f_equal.
        -- apply flat_map_ext_in. intros i Hi. apply in_seq in Hi.
           rewrite !page_file_write_other by (intros Heq; inversion Heq; lia).
           unfold page_file. rewrite Hpg. simpl. rewrite Hfs. reflexivity.
        -- cbn [flat_map]. rewrite app_nil_r, page_file_write_other by discriminate.
           unfold page_file. rewrite writeFile_same. reflexivity.
      * rewrite !writeFile_other by discriminate. rewrite Hall3. simpl. rewrite Hfs. exact Hall.
  - apply andb_false_iff in Hc.
    assert (Hle : (p - 1 <= stop)%nat) by lia.
    exists (p - 1)%nat. split; [exact Hle|]. split.
    + rewrite Hacc. apply flat_map_ext_in. intros i _. symmetry. apply page_file_write_other. discriminate.
    + left. apply writeFile_same.
Qed.

Lemma run_aggregate_inv (E : Env) (stop : nat) (f0 : path -> option FileC) :
  forall n c, aggregate_inv stop f0 c -> aggregate_inv stop f0 (run E stop n c).
Proof.
  induction n as [|n IH]; intros c H; [exact H|]. apply IH, step_aggregate_inv, H.
Qed.

(** The list a run of the pipeline returns is the concatenation of the
    per-page files [page_1.json], ..., [page_k.json] it leaves, for some
    [k] not above the page limit; [all.json] then holds that list, or is
    left as it was when an empty page ended the run. *)
Theorem aggregate_is_concat_of_pages (E : Env) (stop : nat) (f0 : path -> option FileC) :
  match pipeline E stop f0 with
  | Ret (Ok r) w =>
      exists k, (k <= stop)%nat /\ r = flat_map (page_file (fs w)) (seq 1 k)
      /\ (fs w PAll = Some (FArticles r) \/ fs w PAll = f0 PAll)
  | _ => True
  end.
Proof.
  assert (H : aggregate_inv stop f0 (pipeline E stop f0)).
  { apply run_aggregate_inv. simpl. split; [lia|]. split; reflexivity. }
  destruct (pipeline E stop f0) as [? ? ?|[r|] w]; [exact I|exact H|exact I].
Qed.

(** ** Lemmas on the blank-line removal of [fetchHTML] *)

Lemma ws_through_last_lf_max (t : jsstring) (k : nat) :
  ws_through_last_lf t = Some k -> ws_through_last_lf (skipn k t) = None.
Proof.
  revert k. induction t as [|c t IH]; intros k; simpl; [discriminate|].
  destruct (is_ws c); [|discriminate].
  destruct (ws_through_last_lf t) as [k'|] eqn:Hk.
  - intros H; injection H as <-. simpl. apply IH. reflexivity.
  - destruct (c =? 10); [|discriminate]. intros H; injection H as <-. exact Hk.
Qed.

Lemma remove_blank_lines_skip (k : nat) (s : jsstring) :
  remove_blank_lines k s = remove_blank_lines O (skipn k s).
Proof.
  revert k. induction s as [|c t IH]; intros k; [destruct k; reflexivity|].
  destruct k as [|k]; [reflexivity|]. simpl. apply IH.
Qed.

Lemma skipn_length_le {A} (k : nat) (l : list A) : (List.length (skipn k l) <= List.length l)%nat.
Proof. rewrite length_skipn. lia. Qed.

Lemma remove_blank_lines_gap_free :
  forall n s st, (List.length s <= n)%nat ->
  (st = true -> ws_through_last_lf s = None) ->
  lf_gap_free st (remove_blank_lines O s) = true.
Proof.
  induction n as [|n IH]; intros s st Hn Hst.
  - destruct s; [reflexivity|simpl in Hn; lia].
  - destruct s as [|c t]; [reflexivity|]. simpl in Hn.
    cbn [remove_blank_lines].
    destruct (Z.eqb_spec c 10) as [->|Hc].
    + destruct (ws_through_last_lf t) as [k|] eqn:Hk.
      * rewrite remove_blank_lines_skip. apply IH.
        -- pose proof (skipn_length_le k t). lia.
        -- intros _. apply ws_through_last_lf_max, Hk.
      * destruct st.
        -- exfalso. specialize (Hst eq_refl). simpl in Hst. rewrite Hk in Hst. discriminate.
        -- simpl. apply IH; [lia|intros _; exact Hk].
    + cbn [lf_gap_free]. apply Z.eqb_neq in Hc. rewrite Hc.
      destruct (is_ws c) eqn:Hw.
      * apply IH; [lia|]. intros Ht. specialize (Hst Ht). simpl in Hst. rewrite Hw in Hst.
        destruct (ws_through_last_lf t); [discriminate|reflexivity].
      * apply IH; [lia|discriminate].
Qed.

Lemma lf_gap_free_ws_run (w l2 : jsstring) :
  Forall (fun c => is_ws c = true) w -> lf_gap_free true (w ++ 10 :: l2) = false.
Proof.
  induction w as [|x w IH]; intros Hw; [reflexivity|].
  inversion Hw as [|? ? Hx Hw']; subst. simpl.
  destruct (x =? 10); [reflexivity|]. rewrite Hx. apply IH, Hw'.
Qed.

Lemma lf_gap_free_blank (w l2 : jsstring) (Hw : Forall (fun c => is_ws c = true) w) :
  forall l1 st, lf_gap_free st (l1 ++ 10 :: w ++ 10 :: l2) = false.
Proof.
  induction l1 as [|c l1 IH]; intros st.
  - simpl. rewrite lf_gap_free_ws_run by exact Hw. apply andb_false_r.
  - simpl. destruct (c =? 10); [rewrite IH; apply andb_false_r|].
    destruct (is_ws c); apply IH.
Qed.

(** The page text [fetchHTML] returns never contains a blank line: no two
    line feeds with only whitespace between them. *)
Theorem fetchHTML_no_blank_line (fetched scraped : option jsstring) :
  ~ blank_line (fetchHTML_js fetched scraped).
Proof.
  intros [l1 [w [l2 [Heq Hw]]]].
  assert (H : lf_gap_free false (fetchHTML_js fetched scraped) = true).
  { unfold fetchHTML_js.
    destruct (match fetched with Some [] => scraped | other => other end) as [html|];
      [|reflexivity].
    apply (remove_blank_lines_gap_free (List.length
      (remove_blocks (js "<script") (js "</script>") 0
         (remove_blocks (js "<style") (js "</style>") 0 html)))); [lia|discriminate]. }
  rewrite Heq, lf_gap_free_blank in H by exact Hw. discriminate.
Qed.

(** ** Lemmas on [encodeURIComponent] *)






Lemma hex_digit_unreserved (n : Z) : 0 <= n < 16 -> uri_unreserved (hex_digit n) = true.
Proof.
  intros [H0 H1].
  assert (Hall : forall k, (k < 16)%nat -> uri_unreserved (hex_digit (Z.of_nat k)) = true).
  { intros k Hk. do 16 (destruct k as [|k]; [reflexivity|]). lia. }
  rewrite <- (Z2Nat.id n H0). apply Hall. lia.
Qed.

Lemma pct_chars (b : Z) : 0 <= b < 256 ->
  Forall (fun c => uri_unreserved c || (c =? 37) = true) (pct b).
Proof.
  intros Hb. unfold pct.
  constructor; [reflexivity|]. constructor; [|constructor; [|constructor]];
    apply orb_true_intro; left; apply hex_digit_unreserved.
  - split; [apply Z.div_pos; lia|apply Z.div_lt_upper_bound; lia].
  - apply Z.mod_pos_bound. lia.
Qed.

Lemma utf8_bytes (cp : Z) : 0 <= cp < 1114112 -> Forall (fun b => 0 <= b < 256) (utf8 cp).
Proof.
  intros H. unfold utf8.
  destruct (Z.ltb_spec cp 128); [constructor; [lia|constructor]|].
  destruct (Z.ltb_spec cp 2048);
    [|destruct (Z.ltb_spec cp 65536)];
    repeat constructor; Z.div_mod_to_equations; lia.
Qed.

Lemma Forall_flat_map_pct (bytes : list Z) :
  Forall (fun b => 0 <= b < 256) bytes ->
  Forall (fun c => uri_unreserved c || (c =? 37) = true) (flat_map pct bytes).
Proof.
  induction bytes as [|b t IH]; intros H; [constructor|].
  inversion H as [|? ? Hb Ht]; subst. cbn [flat_map]. apply Forall_app. split; [apply pct_chars, Hb|apply IH, Ht].
Qed.

Lemma encodeURIComponent_chars_aux :
  forall n s t, (List.length s <= n)%nat -> code_units s = true ->
  encodeURIComponent s = Some t ->
  Forall (fun c => uri_unreserved c || (c =? 37) = true) t.
Proof.
  induction n as [|n IH]; intros s t Hn Hs Ht.
  - destruct s; [simpl in Ht; injection Ht as <-; constructor|simpl in Hn; lia].
  - destruct s as [|c r]; [simpl in Ht; injection Ht as <-; constructor|].
    simpl in Hn, Hs. apply andb_prop in Hs as [Hc Hr].
    apply andb_prop in Hc as [Hc1 Hc2]. apply Z.leb_le in Hc1. apply Z.ltb_lt in Hc2.
    cbn [encodeURIComponent] in Ht.
    destruct (uri_unreserved c) eqn:Hu.
    + destruct (encodeURIComponent r) as [t'|] eqn:Hr'; [|discriminate]. injection Ht as <-.
      constructor; [rewrite Hu; reflexivity|]. apply (IH r); auto. lia.
    + destruct (is_low c) eqn:Hl; [discriminate|].
      destruct (is_high c) eqn:Hh.
      * destruct r as [|d r']; [discriminate|]. simpl in Hr. apply andb_prop in Hr as [Hd Hr'].
        destruct (is_low d) eqn:Hld; [|discriminate].
        destruct (encodeURIComponent r') as [t'|] eqn:He; [|discriminate]. injection Ht as <-.
        apply Forall_app. split.
        -- apply Forall_flat_map_pct, utf8_bytes.
           unfold is_high, is_low in *. apply andb_prop in Hh as [Hh1 Hh2].
           apply andb_prop in Hld as [Hl1 Hl2]. apply Z.leb_le in Hh1, Hh2, Hl1, Hl2. lia.
        -- apply (IH r'); auto. simpl in Hn. lia.
      * destruct (encodeURIComponent r) as [t'|] eqn:He; [|discriminate]. injection Ht as <-.
        apply Forall_app. split; [apply Forall_flat_map_pct, utf8_bytes; lia|].
        apply (IH r); auto. lia.
Qed.


(** The query term [encodeURIComponent] builds from a string of code
    units consists of unreserved characters and ['%'] only: it never
    contains a space, ['&'], ['='], ['#'], ['?'] or ['/'], so the name
    cannot add a query parameter or a fragment to the search URL. *)
Theorem encodeURIComponent_chars (s t : jsstring)
  (Hs : code_units s = true) (Ht : encodeURIComponent s = Some t) :
  Forall (fun c => uri_unreserved c || (c =? 37) = true) t.
Proof. exact (encodeURIComponent_chars_aux (List.length s) s t ltac:(lia) Hs Ht). Qed.

Lemma encodeURIComponent_chars_witness :
  Forall (fun c => uri_unreserved c || (c =? 37) = true) (js "Abu%20Ali%20%26%20co%3D1").
Proof.
  apply (encodeURIComponent_chars (js "Abu Ali & co=1")); vm_compute; reflexivity.
Defined.

(** ** Lemmas on the per-name search CLI *)

Lemma jseqb_eq (a b : jsstring) : jseqb a b = true <-> a = b.
Proof. unfold jseqb. destruct (list_eq_dec Z.eq_dec a b); split; congruence. Qed.

Lemma jseqb_refl (a : jsstring) : jseqb a a = true.
Proof. apply jseqb_eq. reflexivity. Qed.






Lemma assoc_none {A} (k : jsstring) (o : list (jsstring * A)) :
  existsb (fun p => jseqb (fst p) k) o = false -> assoc k o = None.
Proof.
  induction o as [|[k' v] t IH]; intros H; [reflexivity|]. simpl in H |- *.
  apply orb_false_iff in H as [H1 H2].
  destruct (jseqb k k') eqn:Hk; [apply jseqb_eq in Hk; subst; rewrite jseqb_refl in H1; discriminate|].
  apply IH, H2.
Qed.












